(** * MPU6050 live plotters: parser, ring buffers, driver loop, table pose

    Shallow embedding of the three scripts under [Python_Codes]:
    [Pitch.py], [Roll_Pitch.py] and [Roll_Pitch_Yaw.py].

    - A Python [str] is a list of characters; a character is a code point
      below 256 (the transport carries ASCII lines).
    - A Python [float] is an IEEE binary64 value, [spec_float] with
      precision 53 and maximal exponent 1024.
    - [None] is the [None] of [option]; a raised exception is the [None]
      of the function's result, caught where the source catches it.
    - The serial port is the sequence of strings that the reads return;
      one call of [update] is one tick, and what it hands to the figure
      is returned as a frame next to the new state.
    - numpy arrays of the pose code are lists of rows over the real
      numbers: binary64 rounding of the trigonometry is not modelled,
      and an angle is a finite number, [to_real] of a finite float. *)

From Stdlib Require Import Ascii String.
From Stdlib Require Import List Bool Arith ZArith NArith Lia.
From Stdlib Require Import Floats.SpecFloat.
From Stdlib Require Import Reals Lra.
Import ListNotations.

Set Implicit Arguments.

(** ** Python strings *)

Module PyStr.

Definition str := list ascii.

Definition of_string (s : string) : str := list_ascii_of_string s.

Definition code (c : ascii) : N := N_of_ascii c.

Definition in_range (lo hi : N) (c : ascii) : bool :=
  (N.leb lo (code c) && N.leb (code c) hi)%bool.

(** [str.isspace] on one character: TAB..CR, FS..US, space, NEL, NBSP. *)
Definition isspace (c : ascii) : bool :=
  in_range 9 13 c || in_range 28 32 c || N.eqb (code c) 133 || N.eqb (code c) 160.

Fixpoint lstrip_by (ws : ascii -> bool) (s : str) : str :=
  match s with
  | [] => []
  | c :: s' => if ws c then lstrip_by ws s' else s
  end.

Definition rstrip_by (ws : ascii -> bool) (s : str) : str :=
  rev (lstrip_by ws (rev s)).

Definition strip_by (ws : ascii -> bool) (s : str) : str :=
  rstrip_by ws (lstrip_by ws s).

(** [s.strip()] *)
Definition strip (s : str) : str := strip_by isspace s.

(** [s.split(sep)] for a one-character separator: never the empty list. *)
Fixpoint split (sep : ascii) (s : str) : list str :=
  match s with
  | [] => [[]]
  | c :: s' =>
      if Ascii.eqb c sep then [] :: split sep s'
      else match split sep s' with
           | [] => [[c]]
           | p :: ps => (c :: p) :: ps
           end
  end.

Definition comma : ascii := ","%char.

Definition newline : ascii := "010"%char.

(** The degree sign, code point 176. *)
Definition degree_sign : ascii := "176"%char.

(** A line of text as the port delivers it, with its line end. *)
Definition text_line (s : string) : str := of_string s ++ [newline].

(** A string of white space only. *)
Definition all_space (s : str) : Prop := Forall (fun c => isspace c = true) s.

End PyStr.

(** ** The builtin [float(str)] *)

Module PyFloat.
Import PyStr.

Definition float := spec_float.

Definition prec : Z := 53.
Definition emax : Z := 1024.

(** The literal [0.0]. *)
Definition zero : float := S754_zero false.

(** The binary64 value nearest to an integer. *)
Definition of_Z (z : Z) : float := binary_normalize prec emax z 0 false.

(** The real number that a finite float is; the infinities and the
    not-a-number are none. *)
Definition to_real (x : float) : option R :=
  match x with
  | S754_zero _ => Some 0%R
  | S754_finite s m e =>
      Some ((if s then -1 else 1) * IZR (Zpos m) * powerRZ 2 e)%R
  | S754_infinity _ => None
  | S754_nan => None
  end.

(** What a numeric string denotes before rounding. *)
Inductive literal :=
| LNan
| LInf (neg : bool)
| LDec (neg : bool) (mant : N) (exp10 : Z).

(** Correctly rounded (to nearest, ties to even) value of
    [(-1)^neg * mant * 10^exp10]; an overflow gives an infinity. *)
Definition round_decimal (neg : bool) (mant : N) (exp10 : Z) : float :=
  match mant with
  | N0 => S754_zero neg
  | Npos m =>
      match exp10 with
      | Zneg e =>
          SFdiv prec emax (S754_finite neg m 0)
                (S754_finite false (Pos.pow 10 e) 0)
      | Z0 => binary_round prec emax neg m 0
      | Zpos e => binary_round prec emax neg (m * Pos.pow 10 e) 0
      end
  end.

Definition of_literal (l : literal) : float :=
  match l with
  | LNan => S754_nan
  | LInf neg => S754_infinity neg
  | LDec neg m e => round_decimal neg m e
  end.

(** Whitespace that [float] removes at both ends: the C [isspace] set,
    and the non-ASCII spaces, which it first rewrites to a blank. *)
Definition float_space (c : ascii) : bool :=
  in_range 9 13 c || N.eqb (code c) 32 || N.eqb (code c) 133 || N.eqb (code c) 160.

Definition is_digit (c : ascii) : bool := in_range 48 57 c.

Definition digit_val (c : ascii) : N := (code c - 48)%N.

Definition underscore : ascii := "_"%char.

(** An underscore is allowed only between two digits; [prev] is the
    previous character, if any.  The result has the underscores removed. *)
Fixpoint strip_underscores (prev : option ascii) (s : str) : option str :=
  match s with
  | [] =>
      match prev with
      | Some p => if Ascii.eqb p underscore then None else Some []
      | None => Some []
      end
  | c :: s' =>
      let prev_digit := match prev with Some p => is_digit p | None => false end in
      let prev_us := match prev with Some p => Ascii.eqb p underscore | None => false end in
      if Ascii.eqb c underscore then
        if prev_digit then strip_underscores (Some c) s' else None
      else
        if prev_us && negb (is_digit c) then None
        else option_map (cons c) (strip_underscores (Some c) s')
  end.

(** Longest prefix of digits, and the rest. *)
Fixpoint span_digits (s : str) : str * str :=
  match s with
  | [] => ([], [])
  | c :: s' =>
      if is_digit c then let (d, r) := span_digits s' in (c :: d, r)
      else ([], s)
  end.

Definition digits_value (acc : N) (ds : str) : N :=
  fold_left (fun a c => (10 * a + digit_val c)%N) ds acc.

Definition lower (c : ascii) : ascii :=
  if in_range 65 90 c then ascii_of_N (code c + 32) else c.

Definition str_eqb (a b : str) : bool :=
  if list_eq_dec ascii_dec a b then true else false.

(** Optional sign. *)
Definition take_sign (s : str) : bool * str :=
  match s with
  | c :: s' =>
      if Ascii.eqb c "-"%char then (true, s')
      else if Ascii.eqb c "+"%char then (false, s')
      else (false, s)
  | [] => (false, s)
  end.

(** The exponent part: empty, or [e]/[E], an optional sign and at least
    one digit, up to the end of the string. *)
Definition parse_exponent (s : str) : option Z :=
  match s with
  | [] => Some 0%Z
  | c :: s' =>
      if Ascii.eqb (lower c) "e"%char then
        let (neg, s1) := take_sign s' in
        let (ds, rest) := span_digits s1 in
        match ds, rest with
        | _ :: _, [] =>
            let v := Z.of_N (digits_value 0 ds) in
            Some (if neg then (- v)%Z else v)
        | _, _ => None
        end
      else None
  end.

(** The grammar of a numeric string, sign already removed. *)
Definition parse_unsigned (neg : bool) (s : str) : option literal :=
  let low := map lower s in
  if str_eqb low (of_string "inf") || str_eqb low (of_string "infinity")
  then Some (LInf neg)
  else if str_eqb low (of_string "nan") then Some LNan
  else
    let (ip, r1) := span_digits s in
    let (fp, r2) :=
      match r1 with
      | c :: r1' => if Ascii.eqb c "."%char then span_digits r1' else ([], r1)
      | [] => ([], r1)
      end in
    match ip ++ fp with
    | [] => None
    | _ :: _ =>
        match parse_exponent r2 with
        | Some e =>
            Some (LDec neg (digits_value 0 (ip ++ fp))
                       (e - Z.of_nat (length fp)))
        | None => None
        end
    end.

Definition parse_literal (s : str) : option literal :=
  match strip_by float_space s with
  | [] => None
  | t =>
      match strip_underscores None t with
      | None => None
      | Some u => let (neg, r) := take_sign u in parse_unsigned neg r
      end
  end.

(** [float(s)]: [None] stands for the [ValueError]. *)
Definition float_of_str (s : str) : option float :=
  option_map of_literal (parse_literal s).

End PyFloat.

(** ** Formatting a float as [format(x, '+.1f')] *)

Module PyFormat.
Import PyStr PyFloat.

(** [a / b] rounded to the nearest integer, a tie to the even one. *)
Definition div_half_even (a b : N) : N :=
  let q := (a / b)%N in
  let r := (a mod b)%N in
  match (2 * r ?= b)%N with
  | Lt => q
  | Gt => (q + 1)%N
  | Eq => if N.even q then q else (q + 1)%N
  end.

(** The number of tenths in [m * 2^e], rounded to an integer. *)
Definition tenths (m : positive) (e : Z) : N :=
  match e with
  | Zneg k => div_half_even (10 * Npos m) (Npos (Pos.pow 2 k))
  | Z0 => (10 * Npos m)%N
  | Zpos k => (10 * Npos m * Npos (Pos.pow 2 k))%N
  end.

Definition digit_char (d : N) : ascii := ascii_of_N (48 + d).

(** The decimal digits of [n] before [acc], most significant first and
    without leading zeros; [fuel] bounds the number of digits. *)
Fixpoint digits_fuel (fuel : nat) (n : N) (acc : str) : str :=
  match fuel with
  | O => acc
  | S fuel' =>
      let acc' := digit_char (n mod 10) :: acc in
      if N.eqb (n / 10) 0 then acc' else digits_fuel fuel' (n / 10) acc'
  end.

Definition digits (n : N) : str :=
  digits_fuel (S (N.to_nat (N.log2 n))) n [].

Definition sign_char (neg : bool) : ascii := if neg then "-"%char else "+"%char.

(** A character that no formatted number contains: not a digit, a sign,
    the point, or a letter of [inf] and [nan]. *)
Definition not_in_numbers (sep : ascii) : bool :=
  negb (is_digit sep) &&
  forallb (fun k => negb (Ascii.eqb k sep)) (of_string "+-.infa").

(** [format(x, '+.1f')]: the sign always, one digit after the point. *)
Definition format_plus_1f (x : float) : str :=
  match x with
  | S754_nan => of_string "+nan"
  | S754_infinity s => sign_char s :: of_string "inf"
  | S754_zero s => sign_char s :: of_string "0.0"
  | S754_finite s m e =>
      let t := tenths m e in
      sign_char s :: digits (t / 10) ++ "."%char :: [digit_char (t mod 10)]
  end.

(** The float that the text of [format_plus_1f x] denotes. *)
Definition shown (x : float) : float :=
  match x with
  | S754_finite s m e => round_decimal s (tenths m e) (-1)
  | _ => x
  end.

End PyFormat.

(** ** [collections.deque] with a [maxlen] *)

Module Deque.

Record deque (A : Type) : Type := mk { items : list A; maxlen : nat }.

Arguments mk {A} _ _.
Arguments items {A} _.
Arguments maxlen {A} _.

Section Ops.
Context {A : Type}.

(** [deque(maxlen=n)] *)
Definition empty (n : nat) : deque A := mk [] n.

(** [len(d)] *)
Definition len (d : deque A) : nat := List.length (items d).

(** Truth value of [d] in a condition. *)
Definition nonempty (d : deque A) : bool :=
  match items d with [] => false | _ :: _ => true end.

(** [d.append(x)]: the item goes in on the right, and when the deque
    is then longer than [maxlen] the leftmost item is dropped. *)
Definition append (x : A) (d : deque A) : deque A :=
  let l := items d ++ [x] in
  mk (if Nat.ltb (maxlen d) (List.length l) then tl l else l) (maxlen d).

(** [list(d)] *)
Definition snapshot (d : deque A) : list A := items d.

(** [d[-1]]; [None] stands for the [IndexError]. *)
Definition latest (d : deque A) : option A :=
  match rev (items d) with [] => None | x :: _ => Some x end.

(** Pushing a whole sequence, first element first. *)
Definition extend (xs : list A) (d : deque A) : deque A :=
  fold_left (fun acc x => append x acc) xs d.

(** No more items than the capacity. *)
Definition bounded (d : deque A) : Prop := (len d <= maxlen d)%nat.
End Ops.

End Deque.

(** ** The serial port *)

Module Serial.
Import PyStr.

(** The port is the sequence of strings that the coming calls
    [ser.readline().decode(errors='ignore')] return; the empty string is
    a read that timed out.  Once the sequence is used up every read
    times out. *)
Definition port := list str.

Definition readline (p : port) : str * port :=
  match p with
  | [] => ([], [])
  | raw :: p' => (raw, p')
  end.

(** [for _ in range(n): raw = readline(); if not raw: break;
     lines.append(raw)] *)
Fixpoint read_lines (n : nat) (p : port) : list str * port :=
  match n with
  | O => ([], p)
  | S n' =>
      let (raw, p') := readline p in
      match raw with
      | [] => ([], p')
      | _ :: _ => let (ls, p'') := read_lines n' p' in (raw :: ls, p'')
      end
  end.

Section Loop.
Variable B : Type.
(** What follows the [break] test in the loop body. *)
Variable body : str -> B -> B.

(** [for _ in range(n): raw = readline(); if not raw: break; body] *)
Fixpoint read_loop (n : nat) (p : port) (b : B) : B * port :=
  match n with
  | O => (b, p)
  | S n' =>
      let (raw, p') := readline p in
      match raw with
      | [] => (b, p')
      | _ :: _ => read_loop n' p' (body raw b)
      end
  end.

(** [for raw in lines: body] *)
Definition for_each (lines : list str) (b : B) : B :=
  fold_left (fun acc raw => body raw acc) lines b.
End Loop.

(** [not raw]: the read timed out. *)
Definition timed_out (raw : str) : bool :=
  match raw with [] => true | _ :: _ => false end.

(** The reads of a stretch of the port that delivered a line. *)
Definition data_lines (p : port) : list str :=
  filter (fun raw => negb (timed_out raw)) p.

(** The lines that [n] ticks read, [batch] reads at most per tick. *)
Fixpoint consumed (batch n : nat) (p : port) : list str :=
  match n with
  | O => []
  | S n' => let (ls, p') := read_lines batch p in ls ++ consumed batch n' p'
  end.

(** What is left of the port after [n] ticks. *)
Fixpoint remaining (batch n : nat) (p : port) : port :=
  match n with
  | O => p
  | S n' => remaining batch n' (snd (read_lines batch p))
  end.

End Serial.

(** ** Shared Python idioms *)

Module Py.
Import PyStr PyFloat.

(** A value that is a float or [None]. *)
Definition value := option float.

(** [try: body except: handler], an exception in [body] being [None]. *)
Definition try_except {A : Type} (body : option A) (handler : A) : A :=
  match body with Some a => a | None => handler end.

(** [parts[i]]; [None] stands for the [IndexError]. *)
Definition getitem {A : Type} (l : list A) (i : nat) : option A := nth_error l i.

Definition bind {A B : Type} (m : option A) (k : A -> option B) : option B :=
  match m with Some a => k a | None => None end.

(** [list(range(n))] *)
Definition range (n : nat) : list Z := map Z.of_nat (seq 0 n).

Definition WINDOW : nat := 200.

(** [ax1.set_xlim(max(0, len(xs)-WINDOW), max(WINDOW, len(xs)))] *)
Definition x_limits (xs : list Z) : Z * Z :=
  let n := Z.of_nat (List.length xs) in
  (Z.max 0 (n - Z.of_nat WINDOW), Z.max (Z.of_nat WINDOW) n).

(** [len(x_idx) + 1 if x_idx else 1] *)
Definition next_index (x_idx : Deque.deque Z) : Z :=
  if Deque.nonempty x_idx then (Z.of_nat (Deque.len x_idx) + 1)%Z else 1%Z.

(** [x_idx.append(len(x_idx) + 1 if x_idx else 1)] *)
Definition push_index (x_idx : Deque.deque Z) : Deque.deque Z :=
  Deque.append (next_index x_idx) x_idx.

(** The index buffer after [k] accepted samples. *)
Definition push_indices (k : nat) (x_idx : Deque.deque Z) : Deque.deque Z :=
  Nat.iter k push_index x_idx.

(** The values that [k] accepted samples push to an index buffer that
    holds [n] items and has room for [w]. *)
Fixpoint pushed_indices (w k n : nat) : list Z :=
  match k with
  | O => []
  | S k' => (Z.of_nat n + 1)%Z :: pushed_indices w k' (Nat.min (S n) w)
  end.

Definition count_accepted (accepted : PyStr.str -> bool) (lines : list PyStr.str) : nat :=
  List.length (filter accepted lines).

(** The last [WINDOW] elements of a list, all of them when there are
    fewer. *)
Definition last_window {A : Type} (l : list A) : list A :=
  skipn (List.length l - WINDOW) l.

(** The last element of a list, if any. *)
Definition last_item {A : Type} (l : list A) : option A := hd_error (rev l).

End Py.

Declare Scope py_scope.
Notation "x <- m ;; k" := (Py.bind m (fun x => k))
  (at level 61, m at next level, right associativity) : py_scope.
Open Scope py_scope.

(** ** numpy arrays of reals *)

Module Np.
Import Py.
Open Scope R_scope.

Definition vec := list R.
Definition matrix := list vec.

(** [np.radians] *)
Definition radians (deg : R) : R := deg * (PI / 180).

Definition dot (u v : vec) : R :=
  fold_left Rplus (map (fun ab => fst ab * snd ab) (combine u v)) 0.

Definition ncols (M : matrix) : nat :=
  match M with [] => O | r :: _ => List.length r end.

Definition column (j : nat) (M : matrix) : vec := map (fun r => nth j r 0) M.

(** [M.T] *)
Definition transpose (M : matrix) : matrix :=
  map (fun j => column j M) (seq 0 (ncols M)).

(** [A @ B]; [None] stands for the [ValueError] on mismatched shapes. *)
Definition matmul (A B : matrix) : option matrix :=
  if forallb (fun r => Nat.eqb (List.length r) (List.length B)) A
  then Some (map (fun r => map (fun j => dot r (column j B)) (seq 0 (ncols B))) A)
  else None.

Fixpoint add_at (j : nat) (c : R) (r : vec) : vec :=
  match r, j with
  | [], _ => []
  | x :: r', O => (x + c) :: r'
  | x :: r', S j' => x :: add_at j' c r'
  end.

(** [M[:, j] += c]; [None] stands for the [IndexError]. *)
Definition add_to_column (j : nat) (c : R) (M : matrix) : option matrix :=
  if forallb (fun r => Nat.ltb j (List.length r)) M
  then Some (map (add_at j c) M)
  else None.

(** A list comprehension or loop whose body may raise. *)
Fixpoint for_all {A B : Type} (f : A -> option B) (l : list A) : option (list B) :=
  match l with
  | [] => Some []
  | a :: l' => b <- f a ;; bs <- for_all f l' ;; Some (b :: bs)
  end.

End Np.

(** ** The table mesh, the same in Roll_Pitch.py and Roll_Pitch_Yaw.py *)

Module Table.
Import Py Np.
Open Scope R_scope.

Definition tw : R := 3.0.
Definition td : R := 2.0.
Definition th : R := 0.15.

Definition tabletop : matrix :=
  [ [-tw/2; -td/2; 0]; [tw/2; -td/2; 0]; [tw/2; td/2; 0]; [-tw/2; td/2; 0];
    [-tw/2; -td/2; th]; [tw/2; -td/2; th]; [tw/2; td/2; th]; [-tw/2; td/2; th] ].

Definition leg_w : R := 0.15.
Definition leg_h : R := 1.2.
Definition leg_inset : R := 0.3.

Definition leg_positions : list (R * R) :=
  [ (-tw/2 + leg_inset, -td/2 + leg_inset);
    (tw/2 - leg_inset, -td/2 + leg_inset);
    (tw/2 - leg_inset, td/2 - leg_inset);
    (-tw/2 + leg_inset, td/2 - leg_inset) ].

Definition leg (lxy : R * R) : matrix :=
  let (lx, ly) := lxy in
  [ [lx - leg_w/2; ly - leg_w/2; -leg_h]; [lx + leg_w/2; ly - leg_w/2; -leg_h];
    [lx + leg_w/2; ly + leg_w/2; -leg_h]; [lx - leg_w/2; ly + leg_w/2; -leg_h];
    [lx - leg_w/2; ly - leg_w/2; 0]; [lx + leg_w/2; ly - leg_w/2; 0];
    [lx + leg_w/2; ly + leg_w/2; 0]; [lx - leg_w/2; ly + leg_w/2; 0] ].

Definition legs : list matrix := map leg leg_positions.

(** The lift of the mesh along the third axis. *)
Definition lift : R := 1.5.

(** [ax2.set_xlim(-3, 3)], [ax2.set_ylim(-3, 3)], [ax2.set_zlim(-1, 3.5)] *)
Definition view_xlim : R * R := (-3, 3).
Definition view_ylim : R * R := (-3, 3).
Definition view_zlim : R * R := (-1, 3.5).

(** One face: four rows of a vertex array. *)
Definition quad (m : matrix) (a b c d : nat) : option (list vec) :=
  va <- getitem m a ;; vb <- getitem m b ;;
  vc <- getitem m c ;; vd <- getitem m d ;;
  Some [va; vb; vc; vd].

(** bottom, top, front, back, left, right *)
Definition box_faces (m : matrix) : option (list (list vec)) :=
  bottom <- quad m 0 1 2 3 ;;
  top <- quad m 4 5 6 7 ;;
  front <- quad m 0 1 5 4 ;;
  back <- quad m 2 3 7 6 ;;
  left <- quad m 0 3 7 4 ;;
  right <- quad m 1 2 6 5 ;;
  Some [bottom; top; front; back; left; right].

(** [create_table_faces], the same in both scripts. *)
Definition create_table_faces (tabletop : matrix) (legs : list matrix)
  : option (list (list vec)) :=
  ft <- box_faces tabletop ;;
  fl <- for_all box_faces legs ;;
  Some (ft ++ concat fl).

Definition Ry (pitch_rad : R) : matrix :=
  [ [cos pitch_rad; 0; sin pitch_rad];
    [0; 1; 0];
    [- sin pitch_rad; 0; cos pitch_rad] ].

Definition Rx (roll_rad : R) : matrix :=
  [ [1; 0; 0];
    [0; cos roll_rad; - sin roll_rad];
    [0; sin roll_rad; cos roll_rad] ].

Definition Rz (yaw_rad : R) : matrix :=
  [ [cos yaw_rad; - sin yaw_rad; 0];
    [sin yaw_rad; cos yaw_rad; 0];
    [0; 0; 1] ].

(** From "Apply rotations" to the [return]: the mesh times [R.T], then
    the lift of every third coordinate. *)
Definition rotate_and_lift (Rm : matrix) : option (matrix * list matrix) :=
  tabletop_rot <- matmul tabletop (transpose Rm) ;;
  legs_rot <- for_all (fun leg => matmul leg (transpose Rm)) legs ;;
  tabletop_rot <- add_to_column 2 lift tabletop_rot ;;
  legs_rot <- for_all (add_to_column 2 lift) legs_rot ;;
  Some (tabletop_rot, legs_rot).

End Table.

(** ** Pitch.py *)

Module Pitch.
Import PyStr PyFloat Deque Serial Py.

(** [parse_line]: the first field as a float, [None] when it is none. *)
Definition parse_line (line : str) : value :=
  try_except
    (let parts := split comma (strip line) in
     p0 <- getitem parts 0 ;;
     pitch <- float_of_str p0 ;;
     Some (Some pitch))
    None.

Record state := mkState {
  ser : port;
  pitch_buf : deque value;
  x_idx : deque Z
}.

(** What one tick hands to the figure; [bar_angle] is the argument of
    the call of [update_bar_angle], if there is one. *)
Record frame := mkFrame {
  line_pitch : list Z * list value;
  xlim : Z * Z;
  bar_angle : option value
}.

Definition init (p : port) : state :=
  mkState p (empty WINDOW) (empty WINDOW).

Definition buffers := (deque value * deque Z)%type.

Definition loop_body (raw : str) (b : buffers) : buffers :=
  let (pb, xi) := b in
  match parse_line raw with
  | None => b
  | Some pitch => (append (Some pitch) pb, push_index xi)
  end.

Definition BATCH : nat := 5.

Definition update (s : state) : state * frame :=
  let '((pb, xi), p') := read_loop loop_body BATCH (ser s) (pitch_buf s, x_idx s) in
  let xs := range (len xi) in
  (mkState p' pb xi,
   mkFrame (xs, snapshot pb) (x_limits xs)
           (if nonempty pb then latest pb else None)).

Definition bufs (s : state) : buffers := (pitch_buf s, x_idx s).

Definition accepted (raw : str) : bool :=
  match parse_line raw with Some _ => true | None => false end.

(** The accepted samples of a sequence of lines, in order. *)
Definition samples (lines : list str) : list value :=
  map parse_line (filter accepted lines).

(** The state after [n] ticks, and the frame of the tick after them. *)
Definition run (n : nat) (s : state) : state :=
  Nat.iter n (fun s => fst (update s)) s.

Definition tick_frame (n : nat) (s : state) : frame := snd (update (run n s)).

End Pitch.

(** ** Roll_Pitch.py *)

Module Roll_Pitch.
Import PyStr PyFloat Deque Serial Py.

Definition parse_line (line : str) : value * value :=
  try_except
    (let parts := split comma (strip line) in
     if Nat.leb 2 (List.length parts) then
       p0 <- getitem parts 0 ;;
       pitch <- float_of_str p0 ;;
       p1 <- getitem parts 1 ;;
       roll <- float_of_str p1 ;;
       Some (Some pitch, Some roll)
     else Some (None, None))
    (None, None).

Record state := mkState {
  ser : port;
  pitch_buf : deque value;
  roll_buf : deque value;
  x_idx : deque Z
}.

Record frame := mkFrame {
  line_pitch : list Z * list value;
  line_roll : list Z * list value;
  xlim : Z * Z;
  table_angles : option (value * value)
}.

Definition init (p : port) : state :=
  mkState p (empty WINDOW) (empty WINDOW) (empty WINDOW).

Definition buffers := (deque value * deque value * deque Z)%type.

Definition loop_body (raw : str) (b : buffers) : buffers :=
  let '(pb, rb, xi) := b in
  let (pitch, roll) := parse_line raw in
  match pitch with
  | None => b
  | Some _ => (append pitch pb, append roll rb, push_index xi)
  end.

Definition BATCH : nat := 20.

Definition update (s : state) : state * frame :=
  let '((pb, rb, xi), p') :=
    read_loop loop_body BATCH (ser s) (pitch_buf s, roll_buf s, x_idx s) in
  let xs := range (len xi) in
  (mkState p' pb rb xi,
   mkFrame (xs, snapshot pb) (xs, snapshot rb) (x_limits xs)
           (if nonempty pb
            then (current_pitch <- latest pb ;;
                  current_roll <- latest rb ;;
                  Some (current_pitch, current_roll))
            else None)).

Definition bufs (s : state) : buffers := (pitch_buf s, roll_buf s, x_idx s).

Definition accepted (raw : str) : bool :=
  match fst (parse_line raw) with Some _ => true | None => false end.

Definition samples (lines : list str) : list (value * value) :=
  map parse_line (filter accepted lines).

Definition run (n : nat) (s : state) : state :=
  Nat.iter n (fun s => fst (update s)) s.

Definition tick_frame (n : nat) (s : state) : frame := snd (update (run n s)).

(** The matrix [R = Rx @ Ry]. *)
Definition rotation (pitch_deg roll_deg : R) : option Np.matrix :=
  let pitch_rad := Np.radians pitch_deg in
  let roll_rad := Np.radians roll_deg in
  Np.matmul (Table.Rx roll_rad) (Table.Ry pitch_rad).

Definition create_table_vertices (pitch_deg roll_deg : R)
  : option (Np.matrix * list Np.matrix) :=
  Rm <- rotation pitch_deg roll_deg ;;
  Table.rotate_and_lift Rm.

Definition create_table_faces := Table.create_table_faces.

(** The text that [update_3d_table] gives to [angle_text.set_text]. *)
Definition angle_text (pitch_deg roll_deg : PyFloat.float) : str :=
  of_string "Pitch: " ++ PyFormat.format_plus_1f pitch_deg ++
  degree_sign :: newline ::
  of_string "Roll: " ++ PyFormat.format_plus_1f roll_deg ++
  degree_sign :: newline :: of_string "Yaw: ignored".

(** [update_3d_table]: the faces that [table.set_verts] receives, for
    angles taken as real numbers; the text is [angle_text]. *)
Definition update_3d_table (pitch_deg roll_deg : R)
  : option (list (list Np.vec)) :=
  verts <- create_table_vertices pitch_deg roll_deg ;;
  let (tabletop_verts, legs_verts) := verts : Np.matrix * list Np.matrix in
  create_table_faces tabletop_verts legs_verts.

End Roll_Pitch.

(** ** Roll_Pitch_Yaw.py *)

Module Roll_Pitch_Yaw.
Import PyStr PyFloat Deque Serial Py.

Definition parse_line (line : str) : value * value * value :=
  try_except
    (let parts := split comma (strip line) in
     if Nat.eqb (List.length parts) 3 then
       p0 <- getitem parts 0 ;;
       pitch <- float_of_str p0 ;;
       p1 <- getitem parts 1 ;;
       roll <- float_of_str p1 ;;
       p2 <- getitem parts 2 ;;
       yaw <- float_of_str p2 ;;
       Some (Some pitch, Some roll, Some yaw)
     else if Nat.eqb (List.length parts) 2 then
       p0 <- getitem parts 0 ;;
       pitch <- float_of_str p0 ;;
       p1 <- getitem parts 1 ;;
       roll <- float_of_str p1 ;;
       Some (Some pitch, Some roll, Some zero)
     else Some (None, None, None))
    (None, None, None).

Record state := mkState {
  ser : port;
  pitch_buf : deque value;
  roll_buf : deque value;
  yaw_buf : deque value;
  x_idx : deque Z
}.

Record frame := mkFrame {
  line_pitch : list Z * list value;
  line_roll : list Z * list value;
  line_yaw : list Z * list value;
  xlim : Z * Z;
  table_angles : option (value * value * value)
}.

Definition init (p : port) : state :=
  mkState p (empty WINDOW) (empty WINDOW) (empty WINDOW) (empty WINDOW).

Definition buffers := (deque value * deque value * deque value * deque Z)%type.

Definition loop_body (raw : str) (b : buffers) : buffers :=
  let '(pb, rb, yb, xi) := b in
  let '(pitch, roll, yaw) := parse_line raw in
  match pitch with
  | None => b
  | Some _ =>
      (append pitch pb, append roll rb, append yaw yb, push_index xi)
  end.

Definition BATCH : nat := 20.

Definition update (s : state) : state * frame :=
  let (lines, p') := read_lines BATCH (ser s) in
  let '(pb, rb, yb, xi) :=
    for_each loop_body lines (pitch_buf s, roll_buf s, yaw_buf s, x_idx s) in
  let xs := range (len xi) in
  (mkState p' pb rb yb xi,
   mkFrame (xs, snapshot pb) (xs, snapshot rb) (xs, snapshot yb) (x_limits xs)
           (if nonempty pb
            then (current_pitch <- latest pb ;;
                  current_roll <- latest rb ;;
                  current_yaw <- latest yb ;;
                  Some (current_pitch, current_roll, current_yaw))
            else None)).

Definition bufs (s : state) : buffers :=
  (pitch_buf s, roll_buf s, yaw_buf s, x_idx s).

Definition accepted (raw : str) : bool :=
  match fst (fst (parse_line raw)) with Some _ => true | None => false end.

Definition samples (lines : list str) : list (value * value * value) :=
  map parse_line (filter accepted lines).

Definition run (n : nat) (s : state) : state :=
  Nat.iter n (fun s => fst (update s)) s.

Definition tick_frame (n : nat) (s : state) : frame := snd (update (run n s)).

(** The matrix [R = Rz @ Rx @ Ry]. *)
Definition rotation (pitch_deg roll_deg yaw_deg : R) : option Np.matrix :=
  let pitch_rad := Np.radians pitch_deg in
  let roll_rad := Np.radians roll_deg in
  let yaw_rad := Np.radians yaw_deg in
  RzRx <- Np.matmul (Table.Rz yaw_rad) (Table.Rx roll_rad) ;;
  Np.matmul RzRx (Table.Ry pitch_rad).

Definition create_table_vertices (pitch_deg roll_deg yaw_deg : R)
  : option (Np.matrix * list Np.matrix) :=
  Rm <- rotation pitch_deg roll_deg yaw_deg ;;
  Table.rotate_and_lift Rm.

Definition create_table_faces := Table.create_table_faces.

(** The text that [update_3d_table] gives to [angle_text.set_text]. *)
Definition angle_text (pitch_deg roll_deg yaw_deg : PyFloat.float) : str :=
  of_string "Pitch: " ++ PyFormat.format_plus_1f pitch_deg ++
  degree_sign :: newline ::
  of_string "Roll: " ++ PyFormat.format_plus_1f roll_deg ++
  degree_sign :: newline ::
  of_string "Yaw: " ++ PyFormat.format_plus_1f yaw_deg ++ [degree_sign].

(** [update_3d_table]: the faces that [table.set_verts] receives, for
    angles taken as real numbers; the text is [angle_text]. *)
Definition update_3d_table (pitch_deg roll_deg yaw_deg : R)
  : option (list (list Np.vec)) :=
  verts <- create_table_vertices pitch_deg roll_deg yaw_deg ;;
  let (tabletop_verts, legs_verts) := verts : Np.matrix * list Np.matrix in
  create_table_faces tabletop_verts legs_verts.

End Roll_Pitch_Yaw.


(** ** The pose, in the words of the specification

    Three-vectors and three-by-three matrices with their usual algebra:
    the elementary rotations, their product in the order
    [Rz . Rx . Ry], and the map [v |-> v . R^T] followed by the lift. *)

Module PoseSpec.
Import Np Table.
Open Scope R_scope.

Record vec3 := V3 { vx : R; vy : R; vz : R }.
Record mat3 := M3 { row1 : vec3; row2 : vec3; row3 : vec3 }.

Definition dot3 (u v : vec3) : R := vx u * vx v + vy u * vy v + vz u * vz v.

Definition col1 (M : mat3) : vec3 := V3 (vx (row1 M)) (vx (row2 M)) (vx (row3 M)).
Definition col2 (M : mat3) : vec3 := V3 (vy (row1 M)) (vy (row2 M)) (vy (row3 M)).
Definition col3 (M : mat3) : vec3 := V3 (vz (row1 M)) (vz (row2 M)) (vz (row3 M)).

Definition transpose3 (M : mat3) : mat3 := M3 (col1 M) (col2 M) (col3 M).

(** The row vector [v . M]. *)
Definition vec_mat (v : vec3) (M : mat3) : vec3 :=
  V3 (dot3 v (col1 M)) (dot3 v (col2 M)) (dot3 v (col3 M)).

(** The product [A . B]. *)
Definition mul3 (A B : mat3) : mat3 :=
  M3 (vec_mat (row1 A) B) (vec_mat (row2 A) B) (vec_mat (row3 A) B).

Definition I3 : mat3 := M3 (V3 1 0 0) (V3 0 1 0) (V3 0 0 1).

Definition det3 (M : mat3) : R :=
  let (a, b, c) := row1 M in
  let (d, e, f) := row2 M in
  let (g, h, i) := row3 M in
  a * (e * i - f * h) - b * (d * i - f * g) + c * (d * h - e * g).

(** [M] is orthogonal: [M^T . M] is the identity. *)
Definition orthogonal (M : mat3) : Prop := mul3 (transpose3 M) M = I3.

(** Degrees times pi over 180. *)
Definition to_radians (deg : R) : R := deg * PI / 180.

Definition Ry3 (a : R) : mat3 :=
  M3 (V3 (cos a) 0 (sin a)) (V3 0 1 0) (V3 (- sin a) 0 (cos a)).

Definition Rx3 (a : R) : mat3 :=
  M3 (V3 1 0 0) (V3 0 (cos a) (- sin a)) (V3 0 (sin a) (cos a)).

Definition Rz3 (a : R) : mat3 :=
  M3 (V3 (cos a) (- sin a) 0) (V3 (sin a) (cos a) 0) (V3 0 0 1).

(** [R = Rz . Rx . Ry], for a given third factor [Z]. *)
Definition composed_with (Z : mat3) (pitch_deg roll_deg : R) : mat3 :=
  mul3 (mul3 Z (Rx3 (to_radians roll_deg))) (Ry3 (to_radians pitch_deg)).

Definition composed (pitch_deg roll_deg yaw_deg : R) : mat3 :=
  composed_with (Rz3 (to_radians yaw_deg)) pitch_deg roll_deg.

(** A matrix applied to a vertex: the row vector [v . M^T]. *)
Definition apply3 (M : mat3) (v : vec3) : vec3 := vec_mat v (transpose3 M).

(** The vertex [v . M^T], lifted along the vertical axis. *)
Definition pose_vertex (M : mat3) (v : vec3) : vec3 :=
  let w := apply3 M v in V3 (vx w) (vy w) (vz w + lift).

Definition to_row (v : vec3) : vec := [vx v; vy v; vz v].
Definition of_row (r : vec) : vec3 := V3 (nth 0 r 0) (nth 1 r 0) (nth 2 r 0).
Definition rows (M : mat3) : matrix := [to_row (row1 M); to_row (row2 M); to_row (row3 M)].
Definition of_rows (M : matrix) : mat3 :=
  M3 (of_row (nth 0 M [])) (of_row (nth 1 M [])) (of_row (nth 2 M [])).

Definition pose_row (M : mat3) (r : vec) : vec := to_row (pose_vertex M (of_row r)).

(** A vertex with only the lift applied. *)
Definition lifted (r : vec) : vec :=
  match r with
  | [x; y; z] => [x; y; z + lift]
  | _ => r
  end.

Definition identity : matrix := [[1; 0; 0]; [0; 1; 0]; [0; 0; 1]].

(** Determinant of a three-by-three array. *)
Definition det (M : matrix) : R := det3 (of_rows M).

(** Euclidean distance of two vertices. *)
Definition dist (u v : vec) : R :=
  sqrt (fold_left Rplus (map (fun ab => Rsqr (fst ab - snd ab)) (combine u v)) 0).

(** The distances of every vertex of a mesh to every vertex of it. *)
Definition pairwise_distances (l : list vec) : list (list R) :=
  map (fun u => map (dist u) l) l.

(** The vertices of a pose, tabletop first. *)
Definition vertices (pose : matrix * list matrix) : list vec :=
  fst pose ++ concat (snd pose).

(** An array of [n] rows of three coordinates. *)
Definition shape3 (n : nat) (m : matrix) : Prop :=
  List.length m = n /\ Forall (fun r => List.length r = 3%nat) m.

(** A vertex inside the box that the three-dimensional axes show. *)
Definition in_view (v : vec) : Prop :=
  match v with
  | [x; y; z] =>
      fst view_xlim <= x <= snd view_xlim /\
      fst view_ylim <= y <= snd view_ylim /\
      fst view_zlim <= z <= snd view_zlim
  | _ => False
  end.

(** A vertex of the rest mesh no farther than [r] from the pivot, the
    origin: the bound is on the square of the distance. *)
Definition within (r2 : R) (v : vec) : Prop :=
  match v with
  | [x; y; z] => x * x + y * y + z * z <= r2
  | _ => False
  end.

End PoseSpec.

(** * Properties *)

(** ** Ring buffers *)

Module DequeFacts.
Import Deque.

Section Facts.
Context {A : Type}.
Implicit Types (d : deque A) (x : A) (xs : list A).

Lemma bounded_empty (n : nat) : bounded (@empty A n).
Proof. unfold bounded, len; simpl; lia. Qed.

Lemma maxlen_append x d : maxlen (append x d) = maxlen d.
Proof. reflexivity. Qed.

Lemma maxlen_extend xs : forall d, maxlen (extend xs d) = maxlen d.
Proof.
  induction xs as [|x xs IH]; intro d; [reflexivity|].
  unfold extend in *. simpl. now rewrite IH.
Qed.

Lemma items_append x d :
  bounded d ->
  items (append x d) = skipn (S (len d) - maxlen d) (items d ++ [x]).
Proof.
  unfold bounded, append, len. intro Hb. cbn [items maxlen].
  rewrite length_app, Nat.add_1_r.
  destruct (Nat.ltb_spec (maxlen d) (S (List.length (items d)))) as [H|H].
  - replace (S (List.length (items d)) - maxlen d)%nat with 1%nat by lia.
    now destruct (items d ++ [x]).
  - now replace (S (List.length (items d)) - maxlen d)%nat with O by lia.
Qed.

Lemma len_append x d :
  bounded d -> len (append x d) = Nat.min (S (len d)) (maxlen d).
Proof.
  intro Hb. unfold len at 1. rewrite items_append by assumption.
  rewrite length_skipn, length_app. unfold bounded, len in *.
  cbn [List.length]. lia.
Qed.

Lemma bounded_append x d : bounded d -> bounded (append x d).
Proof.
  intro Hb. unfold bounded. rewrite len_append by assumption.
  rewrite maxlen_append. lia.
Qed.

Lemma bounded_extend xs : forall d, bounded d -> bounded (extend xs d).
Proof.
  induction xs as [|x xs IH]; intros d Hb; [assumption|].
  apply (IH (append x d)), bounded_append, Hb.
Qed.

(** A bounded deque holds the tail of everything that went in. *)
Lemma items_extend xs : forall d,
  bounded d ->
  items (extend xs d) =
  skipn (len d + List.length xs - maxlen d) (items d ++ xs).
Proof.
  induction xs as [|x xs IH]; intros d Hb.
  - cbn [extend fold_left List.length]. rewrite app_nil_r, Nat.add_0_r.
    unfold bounded in Hb.
    now replace (len d - maxlen d)%nat with O by lia.
  - change (extend (x :: xs) d) with (extend xs (append x d)).
    rewrite IH by now apply bounded_append.
    rewrite len_append, maxlen_append, items_append by assumption.
    unfold bounded, len in *.
    replace (items d ++ x :: xs) with ((items d ++ [x]) ++ xs)
      by (now rewrite <- app_assoc).
    cbn [List.length].
    destruct (Nat.eq_dec (List.length (items d)) (maxlen d)) as [E|E].
    + rewrite E.
      replace (S (maxlen d) - maxlen d)%nat with 1%nat by lia.
      replace (Nat.min (S (maxlen d)) (maxlen d) + List.length xs - maxlen d)%nat
        with (List.length xs) by lia.
      replace (maxlen d + S (List.length xs) - maxlen d)%nat
        with (S (List.length xs)) by lia.
      destruct (items d ++ [x]) as [|y l] eqn:El.
      * now destruct (items d).
      * reflexivity.
    + replace (S (List.length (items d)) - maxlen d)%nat with O by lia.
      cbn [skipn]. f_equal. lia.
Qed.

Lemma len_extend xs d :
  bounded d ->
  len (extend xs d) = Nat.min (len d + List.length xs) (maxlen d).
Proof.
  intro Hb. unfold len at 1. rewrite items_extend by assumption.
  rewrite length_skipn, length_app. unfold bounded, len in *. lia.
Qed.
End Facts.

(** C5. A ring buffer of capacity [N] that has taken [N + k] pushes
    (first [k] values [xs], then [N] values [ys]) has size
    [min (N + k) N], and its snapshot, oldest first, is the last [N]
    pushed values [ys] in push order; a push never changes the capacity,
    which is the one given at construction. *)
Theorem ring_buffer_keeps_last_pushes :
  forall (A : Type) (N k : nat) (xs ys : list A),
    List.length xs = k ->
    List.length ys = N ->
    let d := extend (xs ++ ys) (empty N) in
    len d = Nat.min (N + k) N /\
    snapshot d = ys /\
    snapshot d = skipn k (xs ++ ys) /\
    maxlen d = N /\
    (forall (x : A) (d' : deque A), maxlen (append x d') = maxlen d').
Proof.
  intros A N k xs ys Hxs Hys d.
  assert (Hb : bounded (@empty A N)) by apply bounded_empty.
  assert (Hs : snapshot d = skipn k (xs ++ ys)).
  { unfold snapshot, d. rewrite items_extend by assumption.
    unfold len. cbn [items empty maxlen List.length app].
    rewrite length_app. f_equal. lia. }
  repeat split.
  - unfold d. rewrite len_extend by assumption.
    unfold len. cbn [items empty maxlen List.length].
    rewrite length_app. lia.
  - rewrite Hs, <- Hxs, skipn_app, skipn_all, Nat.sub_diag. reflexivity.
  - exact Hs.
  - unfold d. now rewrite maxlen_extend.
Qed.

Lemma ring_buffer_keeps_last_pushes_witness :
  let d := extend ([1; 2] ++ [3; 4; 5])%nat (empty 3) in
  len d = Nat.min (3 + 2) 3 /\
  snapshot d = [3; 4; 5]%nat /\
  snapshot d = skipn 2 ([1; 2] ++ [3; 4; 5])%nat /\
  maxlen d = 3%nat /\
  (forall (x : nat) (d' : deque nat), maxlen (append x d') = maxlen d').
Proof.
  apply (@ring_buffer_keeps_last_pushes nat 3 2 [1; 2]%nat [3; 4; 5]%nat);
    reflexivity.
Defined.

End DequeFacts.

(** ** The line parsers *)

Module ParserFacts.
Import PyStr PyFloat Py.

Lemma split_nonempty sep s : split sep s <> [].
Proof.
  destruct s as [|c s]; simpl; [discriminate|].
  destruct (Ascii.eqb c sep); [discriminate|].
  destruct (split sep s); discriminate.
Qed.

Lemma pitch_parse_line_fields line f0 rest :
  split comma (strip line) = f0 :: rest ->
  Pitch.parse_line line = float_of_str f0.
Proof.
  intro H. unfold Pitch.parse_line. rewrite H. cbn.
  now destruct (float_of_str f0).
Qed.

Lemma roll_pitch_parse_line_fields line f0 f1 rest :
  split comma (strip line) = f0 :: f1 :: rest ->
  Roll_Pitch.parse_line line =
  match float_of_str f0, float_of_str f1 with
  | Some pitch, Some roll => (Some pitch, Some roll)
  | _, _ => (None, None)
  end.
Proof.
  intro H. unfold Roll_Pitch.parse_line. rewrite H. cbn.
  destruct (float_of_str f0); cbn; [|reflexivity].
  now destruct (float_of_str f1).
Qed.

Lemma roll_pitch_parse_line_short line :
  (List.length (split comma (strip line)) < 2)%nat ->
  Roll_Pitch.parse_line line = (None, None).
Proof.
  intro H. unfold Roll_Pitch.parse_line.
  destruct (Nat.leb_spec 2 (List.length (split comma (strip line)))); [lia|].
  reflexivity.
Qed.

Lemma rpy_parse_line_three line a b c :
  split comma (strip line) = [a; b; c] ->
  Roll_Pitch_Yaw.parse_line line =
  match float_of_str a, float_of_str b, float_of_str c with
  | Some pitch, Some roll, Some yaw => (Some pitch, Some roll, Some yaw)
  | _, _, _ => (None, None, None)
  end.
Proof.
  intro H. unfold Roll_Pitch_Yaw.parse_line. rewrite H. cbn.
  destruct (float_of_str a); cbn; [|reflexivity].
  destruct (float_of_str b); cbn; [|reflexivity].
  now destruct (float_of_str c).
Qed.

Lemma rpy_parse_line_two line a b :
  split comma (strip line) = [a; b] ->
  Roll_Pitch_Yaw.parse_line line =
  match float_of_str a, float_of_str b with
  | Some pitch, Some roll => (Some pitch, Some roll, Some zero)
  | _, _ => (None, None, None)
  end.
Proof.
  intro H. unfold Roll_Pitch_Yaw.parse_line. rewrite H. cbn.
  destruct (float_of_str a); cbn; [|reflexivity].
  now destruct (float_of_str b).
Qed.

Lemma rpy_parse_line_other line :
  List.length (split comma (strip line)) <> 3%nat ->
  List.length (split comma (strip line)) <> 2%nat ->
  Roll_Pitch_Yaw.parse_line line = (None, None, None).
Proof.
  intros H3 H2. unfold Roll_Pitch_Yaw.parse_line.
  destruct (Nat.eqb_spec (List.length (split comma (strip line))) 3); [lia|].
  destruct (Nat.eqb_spec (List.length (split comma (strip line))) 2); [lia|].
  reflexivity.
Qed.

(** A sample of the three-axis parser is whole: three floats or three
    [None]. *)
Lemma rpy_parse_line_whole line :
  Roll_Pitch_Yaw.parse_line line = (None, None, None) \/
  exists pitch roll yaw,
    Roll_Pitch_Yaw.parse_line line = (Some pitch, Some roll, Some yaw).
Proof.
  destruct (split comma (strip line)) as [|a [|b [|c [|d l]]]] eqn:E.
  - left. apply rpy_parse_line_other; rewrite E; discriminate.
  - left. apply rpy_parse_line_other; rewrite E; discriminate.
  - rewrite (rpy_parse_line_two _ E).
    destruct (float_of_str a); [|now left].
    destruct (float_of_str b); [|now left].
    right; eauto.
  - rewrite (rpy_parse_line_three _ E).
    destruct (float_of_str a); [|now left].
    destruct (float_of_str b); [|now left].
    destruct (float_of_str c); [|now left].
    right; eauto.
  - left. apply rpy_parse_line_other; rewrite E; discriminate.
Qed.

Lemma roll_pitch_parse_line_whole line :
  Roll_Pitch.parse_line line = (None, None) \/
  exists pitch roll, Roll_Pitch.parse_line line = (Some pitch, Some roll).
Proof.
  destruct (split comma (strip line)) as [|a [|b l]] eqn:E.
  - left. apply roll_pitch_parse_line_short. rewrite E. simpl. lia.
  - left. apply roll_pitch_parse_line_short. rewrite E. simpl. lia.
  - rewrite (roll_pitch_parse_line_fields _ E).
    destruct (float_of_str a); [|now left].
    destruct (float_of_str b); [|now left].
    right; eauto.
Qed.

(** C6. The three-axis parser: three fields that all parse give
    [(pitch, roll, yaw)]; two fields that both parse give
    [(pitch, roll, 0.0)], so the line [20.0,7.0] gives [(20.0, 7.0, 0.0)];
    any other number of fields, and any field that does not parse, give
    no sample. *)
Theorem three_axis_parser_cases :
  forall line : str,
    let parts := split comma (strip line) in
    (forall a b c pitch roll yaw,
        parts = [a; b; c] ->
        float_of_str a = Some pitch ->
        float_of_str b = Some roll ->
        float_of_str c = Some yaw ->
        Roll_Pitch_Yaw.parse_line line = (Some pitch, Some roll, Some yaw)) /\
    (forall a b pitch roll,
        parts = [a; b] ->
        float_of_str a = Some pitch ->
        float_of_str b = Some roll ->
        Roll_Pitch_Yaw.parse_line line = (Some pitch, Some roll, Some zero)) /\
    (List.length parts <> 3%nat -> List.length parts <> 2%nat ->
     Roll_Pitch_Yaw.parse_line line = (None, None, None)) /\
    (forall a b c,
        parts = [a; b; c] ->
        float_of_str a = None \/ float_of_str b = None \/ float_of_str c = None ->
        Roll_Pitch_Yaw.parse_line line = (None, None, None)) /\
    (forall a b,
        parts = [a; b] ->
        float_of_str a = None \/ float_of_str b = None ->
        Roll_Pitch_Yaw.parse_line line = (None, None, None)) /\
    Roll_Pitch_Yaw.parse_line (of_string "20.0,7.0") =
    (Some (of_Z 20), Some (of_Z 7), Some zero).
Proof.
  intros line parts. unfold parts. repeat split.
  - intros a b c pitch roll yaw E Ha Hb Hc.
    now rewrite (rpy_parse_line_three _ E), Ha, Hb, Hc.
  - intros a b pitch roll E Ha Hb.
    now rewrite (rpy_parse_line_two _ E), Ha, Hb.
  - apply rpy_parse_line_other.
  - intros a b c E H. rewrite (rpy_parse_line_three _ E).
    destruct H as [H|[H|H]]; rewrite H;
      repeat match goal with |- context [match float_of_str ?x with _ => _ end] =>
                               destruct (float_of_str x) end; reflexivity.
  - intros a b E H. rewrite (rpy_parse_line_two _ E).
    destruct H as [H|H]; rewrite H;
      repeat match goal with |- context [match float_of_str ?x with _ => _ end] =>
                               destruct (float_of_str x) end; reflexivity.
Qed.

Lemma three_axis_parser_cases_witness :
  Roll_Pitch_Yaw.parse_line (of_string "12.0,5.5,1.0") =
  (Some (of_Z 12), float_of_str (of_string "5.5"), Some (of_Z 1)).
Proof.
  destruct (three_axis_parser_cases (of_string "12.0,5.5,1.0")) as [H _].
  apply (H (of_string "12.0") (of_string "5.5") (of_string "1.0"));
    vm_compute; reflexivity.
Defined.

(** C3, as amended. The pitch parser reads the first field only and the
    pitch and roll parser the first two only, whatever follows them; the
    three-axis parser accepts only lines of exactly two or three fields:
    every line with another number of fields gives no sample, a line of
    four or more fields among them, and a line that gives a sample has
    two or three fields. *)
Theorem extra_fields_by_variant :
  (forall line f0 rest,
      split comma (strip line) = f0 :: rest ->
      Pitch.parse_line line = float_of_str f0) /\
  (forall line f0 f1 rest,
      split comma (strip line) = f0 :: f1 :: rest ->
      Roll_Pitch.parse_line line =
      match float_of_str f0, float_of_str f1 with
      | Some pitch, Some roll => (Some pitch, Some roll)
      | _, _ => (None, None)
      end) /\
  (forall line,
      List.length (split comma (strip line)) <> 2%nat ->
      List.length (split comma (strip line)) <> 3%nat ->
      Roll_Pitch_Yaw.parse_line line = (None, None, None)) /\
  (forall line,
      (4 <= List.length (split comma (strip line)))%nat ->
      Roll_Pitch_Yaw.parse_line line = (None, None, None)) /\
  (forall line,
      Roll_Pitch_Yaw.parse_line line <> (None, None, None) ->
      List.length (split comma (strip line)) = 2%nat \/
      List.length (split comma (strip line)) = 3%nat).
Proof.
  split; [|split; [|split; [|split]]].
  - apply pitch_parse_line_fields.
  - apply roll_pitch_parse_line_fields.
  - intros line H2 H3. now apply rpy_parse_line_other.
  - intros line H. apply rpy_parse_line_other; lia.
  - intros line H.
    destruct (Nat.eq_dec (List.length (split comma (strip line))) 2) as [E2|N2];
      [now left|].
    destruct (Nat.eq_dec (List.length (split comma (strip line))) 3) as [E3|N3];
      [now right|].
    exfalso. apply H. now apply rpy_parse_line_other.
Qed.

Lemma extra_fields_by_variant_witness :
  Pitch.parse_line (of_string "1.0,2.0,3.0,4.0") = Some (of_Z 1) /\
  Roll_Pitch.parse_line (of_string "1.0,2.0,3.0,4.0") =
    (Some (of_Z 1), Some (of_Z 2)) /\
  Roll_Pitch_Yaw.parse_line (of_string "1.0,2.0,3.0,4.0") = (None, None, None) /\
  Roll_Pitch_Yaw.parse_line (of_string "1.0") = (None, None, None) /\
  (List.length (split comma (strip (of_string "1.0,2.0"))) = 2%nat \/
   List.length (split comma (strip (of_string "1.0,2.0"))) = 3%nat).
Proof.
  destruct extra_fields_by_variant as [H1 [H2 [H3 [H4 H5]]]].
  split; [|split; [|split; [|split]]];
    [| | apply H4; vm_compute; lia
       | apply H3; vm_compute; discriminate
       | apply H5; vm_compute; discriminate].
  - rewrite (H1 (of_string "1.0,2.0,3.0,4.0") (of_string "1.0")
               [of_string "2.0"; of_string "3.0"; of_string "4.0"]);
      vm_compute; reflexivity.
  - rewrite (H2 (of_string "1.0,2.0,3.0,4.0") (of_string "1.0") (of_string "2.0")
               [of_string "3.0"; of_string "4.0"]);
      vm_compute; reflexivity.
Defined.

(** C3, as stated, fails: the four-field line [1.0,2.0,3.0,4.0] has
    three leading fields that are floats, and the three-axis parser
    gives no sample for it. *)
Lemma four_fields_give_no_three_axis_sample :
  let line := of_string "1.0,2.0,3.0,4.0" in
  split comma (strip line) =
    [of_string "1.0"; of_string "2.0"; of_string "3.0"; of_string "4.0"] /\
  float_of_str (of_string "1.0") = Some (of_Z 1) /\
  float_of_str (of_string "2.0") = Some (of_Z 2) /\
  float_of_str (of_string "3.0") = Some (of_Z 3) /\
  Roll_Pitch_Yaw.parse_line line = (None, None, None) /\
  Roll_Pitch_Yaw.parse_line line <> (Some (of_Z 1), Some (of_Z 2), Some (of_Z 3)).
Proof.
  repeat split; try (vm_compute; reflexivity).
  vm_compute. discriminate.
Qed.

End ParserFacts.

(** ** The driver loop *)

Module DriverFacts.
Import PyStr PyFloat Deque Serial Py DequeFacts.

Section Loop.
Variable B : Type.
Variable body : str -> B -> B.

(** Reading and handling line by line is reading the batch, then
    handling it. *)
Lemma read_loop_for_each : forall n p b,
  read_loop body n p b =
  (for_each body (fst (read_lines n p)) b, snd (read_lines n p)).
Proof.
  induction n as [|n IH]; intros p b; [reflexivity|].
  cbn [read_loop read_lines]. destruct (readline p) as [raw p'].
  destruct raw as [|c raw]; [reflexivity|].
  rewrite IH. destruct (read_lines n p') as [ls p'']. reflexivity.
Qed.

Lemma for_each_app l1 l2 b :
  for_each body (l1 ++ l2) b = for_each body l2 (for_each body l1 b).
Proof. unfold for_each. apply fold_left_app. Qed.
End Loop.

Lemma remaining_succ batch n p :
  remaining batch (S n) p = snd (read_lines batch (remaining batch n p)).
Proof.
  revert p. induction n as [|n IH]; intro p; [reflexivity|].
  change (remaining batch (S (S n)) p)
    with (remaining batch (S n) (snd (read_lines batch p))).
  now rewrite IH.
Qed.

Lemma consumed_S batch n p :
  consumed batch (S n) p =
  fst (read_lines batch p) ++ consumed batch n (snd (read_lines batch p)).
Proof. cbn [consumed]. now destruct (read_lines batch p). Qed.

Lemma consumed_succ batch n p :
  consumed batch (S n) p =
  consumed batch n p ++ fst (read_lines batch (remaining batch n p)).
Proof.
  revert p. induction n as [|n IH]; intro p.
  - rewrite consumed_S. cbn [consumed remaining]. now rewrite app_nil_r.
  - rewrite consumed_S, IH, (consumed_S batch n p).
    cbn [remaining]. now rewrite app_assoc.
Qed.

(** *** The index buffer *)

Lemma next_index_len (xi : deque Z) :
  next_index xi = (Z.of_nat (len xi) + 1)%Z.
Proof.
  unfold next_index, nonempty, len. now destruct (items xi).
Qed.

Lemma push_indices_succ k xi :
  push_indices (S k) xi = push_indices k (push_index xi).
Proof. unfold push_indices. apply Nat.iter_succ_r. Qed.

Lemma bounded_push_index xi : bounded xi -> bounded (push_index xi).
Proof. apply bounded_append. Qed.

Lemma push_indices_extend : forall k xi,
  bounded xi ->
  push_indices k xi = extend (pushed_indices (maxlen xi) k (len xi)) xi.
Proof.
  induction k as [|k IH]; intros xi Hb; [reflexivity|].
  rewrite push_indices_succ, IH by now apply bounded_push_index.
  cbn [pushed_indices]. unfold push_index at 3.
  rewrite next_index_len.
  unfold push_index. rewrite len_append, maxlen_append by assumption.
  reflexivity.
Qed.

Lemma length_pushed_indices w : forall k n,
  List.length (pushed_indices w k n) = k.
Proof. induction k; intro n; cbn; [reflexivity|now rewrite IHk]. Qed.

Lemma nth_pushed_indices w : forall k n i,
  (n <= w)%nat -> (i < k)%nat ->
  nth i (pushed_indices w k n) 0%Z = (Z.of_nat (Nat.min (n + i) w) + 1)%Z.
Proof.
  induction k as [|k IH]; intros n i Hn Hi; [lia|].
  cbn [pushed_indices]. destruct i as [|i].
  - cbn [nth]. f_equal. f_equal. lia.
  - cbn [nth]. rewrite IH by lia. f_equal. f_equal. lia.
Qed.

Lemma pushed_indices_full w : forall k,
  pushed_indices w k w = repeat (Z.of_nat w + 1)%Z k.
Proof.
  induction k as [|k IH]; [reflexivity|].
  cbn [pushed_indices repeat]. f_equal.
  now replace (Nat.min (S w) w) with w by lia.
Qed.

(** The values pushed, sample by sample: 1, 2, ..., [w], and then
    [w + 1] for ever. *)
Lemma pushed_indices_closed w : forall k n,
  (n <= w)%nat ->
  pushed_indices w k n =
  map (fun i => (Z.of_nat (Nat.min i w) + 1)%Z) (seq n k).
Proof.
  induction k as [|k IH]; intros n Hn; [reflexivity|].
  cbn [pushed_indices seq map]. f_equal.
  - f_equal. f_equal. lia.
  - destruct (Nat.eq_dec n w) as [->|Hne].
    + replace (Nat.min (S w) w) with w by lia.
      rewrite pushed_indices_full.
      clear IH Hn. generalize (S w) (Nat.le_succ_diag_r w).
      induction k as [|k IH]; intros a Ha; [reflexivity|].
      cbn [repeat seq map]. f_equal.
      * f_equal. f_equal. lia.
      * apply IH. lia.
    + replace (Nat.min (S n) w) with (S n) by lia. apply IH. lia.
Qed.

Lemma len_push_indices k xi :
  bounded xi -> len (push_indices k xi) = Nat.min (len xi + k) (maxlen xi).
Proof.
  intro Hb. rewrite push_indices_extend, len_extend by assumption.
  now rewrite length_pushed_indices.
Qed.

Lemma maxlen_push_indices k xi : maxlen (push_indices k xi) = maxlen xi.
Proof.
  induction k as [|k IH]; [reflexivity|].
  unfold push_indices in *. cbn [Nat.iter nat_rect]. unfold push_index at 1.
  now rewrite maxlen_append.
Qed.

Section Ticks.
Variables (St B : Type).
Variable body : str -> B -> B.
Variable bufs : St -> B.
Variable ser : St -> port.
Variable step : St -> St.
Variable batch : nat.
Hypothesis step_bufs : forall s,
  bufs (step s) = for_each body (fst (read_lines batch (ser s))) (bufs s).
Hypothesis step_ser : forall s,
  ser (step s) = snd (read_lines batch (ser s)).

(** [n] ticks handle, in order, the lines that they read. *)
Lemma iter_ticks : forall n s,
  bufs (Nat.iter n step s) = for_each body (consumed batch n (ser s)) (bufs s) /\
  ser (Nat.iter n step s) = remaining batch n (ser s).
Proof.
  induction n as [|n IH]; intro s; [split; reflexivity|].
  destruct (IH s) as [Hb Hs].
  cbn [Nat.iter nat_rect]. fold (Nat.iter n step s).
  rewrite step_bufs, step_ser, Hb, Hs, consumed_succ, remaining_succ.
  now rewrite for_each_app.
Qed.
End Ticks.

Lemma x_limits_range (n : nat) :
  (n <= WINDOW)%nat ->
  x_limits (range n) = (0%Z, Z.of_nat WINDOW).
Proof.
  intro H. unfold x_limits, range. rewrite length_map, length_seq.
  f_equal; lia.
Qed.

End DriverFacts.

Module PitchFacts.
Import PyStr PyFloat Deque Serial Py DequeFacts DriverFacts Pitch.

Lemma pitch_loop_body_cases raw pb xi :
  loop_body raw (pb, xi) =
  if accepted raw then (append (parse_line raw) pb, push_index xi) else (pb, xi).
Proof. unfold loop_body, accepted. now destruct (parse_line raw). Qed.

Lemma pitch_for_each_loop_body : forall lines pb xi,
  for_each loop_body lines (pb, xi) =
  (extend (samples lines) pb, push_indices (count_accepted accepted lines) xi).
Proof.
  induction lines as [|raw lines IH]; intros pb xi; [reflexivity|].
  unfold for_each in *. cbn [fold_left]. rewrite pitch_loop_body_cases.
  unfold samples, count_accepted in *. cbn [filter].
  destruct (accepted raw); rewrite IH; [|reflexivity].
  cbn [map List.length]. now rewrite push_indices_succ.
Qed.

Lemma pitch_update_bufs s :
  bufs (fst (update s)) =
  for_each loop_body (fst (read_lines BATCH (ser s))) (bufs s).
Proof.
  unfold update, bufs. rewrite read_loop_for_each.
  now destruct (for_each loop_body _ _) as [pb xi].
Qed.

Lemma pitch_update_ser s : ser (fst (update s)) = snd (read_lines BATCH (ser s)).
Proof.
  unfold update. rewrite read_loop_for_each.
  now destruct (for_each loop_body _ _) as [pb xi].
Qed.

Lemma pitch_update_xlim s :
  xlim (snd (update s)) = x_limits (range (len (x_idx (fst (update s))))).
Proof.
  unfold update. destruct (read_loop _ _ _ _) as [[pb xi] p']. reflexivity.
Qed.

(** The buffers after [n] ticks from the start. *)
Lemma pitch_run_init n p :
  let lines := consumed BATCH n p in
  pitch_buf (run n (init p)) = extend (samples lines) (empty WINDOW) /\
  x_idx (run n (init p)) =
    push_indices (count_accepted accepted lines) (empty WINDOW).
Proof.
  intro lines.
  destruct (iter_ticks loop_body bufs ser (fun s => fst (update s)) BATCH
              pitch_update_bufs pitch_update_ser n (init p)) as [Hb _].
  fold (run n (init p)) in Hb. unfold bufs in Hb at 2. cbn [init pitch_buf x_idx ser] in Hb.
  rewrite pitch_for_each_loop_body in Hb. unfold bufs in Hb.
  now inversion Hb.
Qed.

Lemma pitch_length_samples lines :
  List.length (samples lines) = count_accepted accepted lines.
Proof. unfold samples, count_accepted. apply length_map. Qed.

End PitchFacts.

Module RollPitchFacts.
Import PyStr PyFloat Deque Serial Py DequeFacts DriverFacts Roll_Pitch.

Lemma rp_loop_body_cases raw pb rb xi :
  loop_body raw (pb, rb, xi) =
  if accepted raw
  then (append (fst (parse_line raw)) pb, append (snd (parse_line raw)) rb,
        push_index xi)
  else (pb, rb, xi).
Proof.
  unfold loop_body, accepted. destruct (parse_line raw) as [pitch roll].
  now destruct pitch.
Qed.

Lemma rp_for_each_loop_body : forall lines pb rb xi,
  for_each loop_body lines (pb, rb, xi) =
  (extend (map fst (samples lines)) pb, extend (map snd (samples lines)) rb,
   push_indices (count_accepted accepted lines) xi).
Proof.
  induction lines as [|raw lines IH]; intros pb rb xi; [reflexivity|].
  unfold for_each in *. cbn [fold_left]. rewrite rp_loop_body_cases.
  unfold samples, count_accepted in *. cbn [filter].
  destruct (accepted raw); rewrite IH; [|reflexivity].
  cbn [map List.length]. now rewrite push_indices_succ.
Qed.

Lemma rp_update_bufs s :
  bufs (fst (update s)) =
  for_each loop_body (fst (read_lines BATCH (ser s))) (bufs s).
Proof.
  unfold update, bufs. rewrite read_loop_for_each.
  now destruct (for_each loop_body _ _) as [[pb rb] xi].
Qed.

Lemma rp_update_ser s : ser (fst (update s)) = snd (read_lines BATCH (ser s)).
Proof.
  unfold update. rewrite read_loop_for_each.
  now destruct (for_each loop_body _ _) as [[pb rb] xi].
Qed.

Lemma rp_update_xlim s :
  xlim (snd (update s)) = x_limits (range (len (x_idx (fst (update s))))).
Proof.
  unfold update. destruct (read_loop _ _ _ _) as [[[pb rb] xi] p']. reflexivity.
Qed.

Lemma rp_run_init n p :
  let lines := consumed BATCH n p in
  pitch_buf (run n (init p)) = extend (map fst (samples lines)) (empty WINDOW) /\
  roll_buf (run n (init p)) = extend (map snd (samples lines)) (empty WINDOW) /\
  x_idx (run n (init p)) =
    push_indices (count_accepted accepted lines) (empty WINDOW).
Proof.
  intro lines.
  destruct (iter_ticks loop_body bufs ser (fun s => fst (update s)) BATCH
              rp_update_bufs rp_update_ser n (init p)) as [Hb _].
  fold (run n (init p)) in Hb. unfold bufs in Hb at 2.
  cbn [init pitch_buf roll_buf x_idx ser] in Hb.
  rewrite rp_for_each_loop_body in Hb. unfold bufs in Hb.
  now inversion Hb.
Qed.

Lemma rp_length_samples lines :
  List.length (samples lines) = count_accepted accepted lines.
Proof. unfold samples, count_accepted. apply length_map. Qed.

End RollPitchFacts.

Module RollPitchYawFacts.
Import PyStr PyFloat Deque Serial Py DequeFacts DriverFacts Roll_Pitch_Yaw.

Lemma rpy_loop_body_cases raw pb rb yb xi :
  loop_body raw (pb, rb, yb, xi) =
  if accepted raw
  then (append (fst (fst (parse_line raw))) pb,
        append (snd (fst (parse_line raw))) rb,
        append (snd (parse_line raw)) yb,
        push_index xi)
  else (pb, rb, yb, xi).
Proof.
  unfold loop_body, accepted. destruct (parse_line raw) as [[pitch roll] yaw].
  now destruct pitch.
Qed.

Lemma rpy_for_each_loop_body : forall lines pb rb yb xi,
  for_each loop_body lines (pb, rb, yb, xi) =
  (extend (map (fun s => fst (fst s)) (samples lines)) pb,
   extend (map (fun s => snd (fst s)) (samples lines)) rb,
   extend (map snd (samples lines)) yb,
   push_indices (count_accepted accepted lines) xi).
Proof.
  induction lines as [|raw lines IH]; intros pb rb yb xi; [reflexivity|].
  unfold for_each in *. cbn [fold_left]. rewrite rpy_loop_body_cases.
  unfold samples, count_accepted in *. cbn [filter].
  destruct (accepted raw); rewrite IH; [|reflexivity].
  cbn [map List.length]. now rewrite push_indices_succ.
Qed.

Lemma rpy_update_bufs s :
  bufs (fst (update s)) =
  for_each loop_body (fst (read_lines BATCH (ser s))) (bufs s).
Proof.
  unfold update, bufs. destruct (read_lines BATCH (ser s)) as [lines p'].
  cbn [fst]. now destruct (for_each loop_body _ _) as [[[pb rb] yb] xi].
Qed.

Lemma rpy_update_ser s : ser (fst (update s)) = snd (read_lines BATCH (ser s)).
Proof.
  unfold update. destruct (read_lines BATCH (ser s)) as [lines p'].
  now destruct (for_each loop_body _ _) as [[[pb rb] yb] xi].
Qed.

Lemma rpy_update_xlim s :
  xlim (snd (update s)) = x_limits (range (len (x_idx (fst (update s))))).
Proof.
  unfold update. destruct (read_lines BATCH (ser s)) as [lines p'].
  now destruct (for_each loop_body _ _) as [[[pb rb] yb] xi].
Qed.

Lemma rpy_run_init n p :
  let lines := consumed BATCH n p in
  pitch_buf (run n (init p)) =
    extend (map (fun s => fst (fst s)) (samples lines)) (empty WINDOW) /\
  roll_buf (run n (init p)) =
    extend (map (fun s => snd (fst s)) (samples lines)) (empty WINDOW) /\
  yaw_buf (run n (init p)) = extend (map snd (samples lines)) (empty WINDOW) /\
  x_idx (run n (init p)) =
    push_indices (count_accepted accepted lines) (empty WINDOW).
Proof.
  intro lines.
  destruct (iter_ticks loop_body bufs ser (fun s => fst (update s)) BATCH
              rpy_update_bufs rpy_update_ser n (init p)) as [Hb _].
  fold (run n (init p)) in Hb. unfold bufs in Hb at 2.
  cbn [init pitch_buf roll_buf yaw_buf x_idx ser] in Hb.
  rewrite rpy_for_each_loop_body in Hb. unfold bufs in Hb.
  now inversion Hb.
Qed.

Lemma rpy_length_samples lines :
  List.length (samples lines) = count_accepted accepted lines.
Proof. unfold samples, count_accepted. apply length_map. Qed.

End RollPitchYawFacts.

(** ** Claims about the driver loop *)

Module DriverClaims.
Import PyStr PyFloat Deque Serial Py DequeFacts DriverFacts.

Lemma len_empty_extend {A : Type} (xs : list A) (w : nat) :
  len (extend xs (empty w)) = Nat.min (List.length xs) w.
Proof. rewrite len_extend by apply bounded_empty. reflexivity. Qed.

Lemma len_empty_push_indices (k w : nat) :
  len (push_indices k (empty w)) = Nat.min k w.
Proof. rewrite len_push_indices by apply bounded_empty. reflexivity. Qed.

(** What the code computes where C1 has the count of accepted samples:
    the bounds of a tick are [max(0, n - WINDOW), max(WINDOW, n)] for
    [n] the number of items in the index buffer after the tick's batch;
    [n] is the smaller of [WINDOW] and the number of samples accepted
    since the start, so that the bounds are [0, 200] after every tick,
    in the three scripts. *)
Theorem x_limits_follow_index_buffer :
  (forall p n,
      let s := Pitch.run (S n) (Pitch.init p) in
      let count := count_accepted Pitch.accepted (consumed Pitch.BATCH (S n) p) in
      let m := Z.of_nat (len (Pitch.x_idx s)) in
      len (Pitch.x_idx s) = Nat.min count WINDOW /\
      Pitch.xlim (Pitch.tick_frame n (Pitch.init p)) =
        (Z.max 0 (m - Z.of_nat WINDOW), Z.max (Z.of_nat WINDOW) m) /\
      Pitch.xlim (Pitch.tick_frame n (Pitch.init p)) = (0, 200)%Z) /\
  (forall p n,
      let s := Roll_Pitch.run (S n) (Roll_Pitch.init p) in
      let count :=
        count_accepted Roll_Pitch.accepted (consumed Roll_Pitch.BATCH (S n) p) in
      let m := Z.of_nat (len (Roll_Pitch.x_idx s)) in
      len (Roll_Pitch.x_idx s) = Nat.min count WINDOW /\
      Roll_Pitch.xlim (Roll_Pitch.tick_frame n (Roll_Pitch.init p)) =
        (Z.max 0 (m - Z.of_nat WINDOW), Z.max (Z.of_nat WINDOW) m) /\
      Roll_Pitch.xlim (Roll_Pitch.tick_frame n (Roll_Pitch.init p)) = (0, 200)%Z) /\
  (forall p n,
      let s := Roll_Pitch_Yaw.run (S n) (Roll_Pitch_Yaw.init p) in
      let count :=
        count_accepted Roll_Pitch_Yaw.accepted
                       (consumed Roll_Pitch_Yaw.BATCH (S n) p) in
      let m := Z.of_nat (len (Roll_Pitch_Yaw.x_idx s)) in
      len (Roll_Pitch_Yaw.x_idx s) = Nat.min count WINDOW /\
      Roll_Pitch_Yaw.xlim (Roll_Pitch_Yaw.tick_frame n (Roll_Pitch_Yaw.init p)) =
        (Z.max 0 (m - Z.of_nat WINDOW), Z.max (Z.of_nat WINDOW) m) /\
      Roll_Pitch_Yaw.xlim (Roll_Pitch_Yaw.tick_frame n (Roll_Pitch_Yaw.init p)) =
        (0, 200)%Z).
Proof.
  split; [|split]; intros p n s count m.
  - assert (Hl : len (Pitch.x_idx s) = Nat.min count WINDOW).
    { unfold s. destruct (PitchFacts.pitch_run_init (S n) p) as [_ ->].
      apply len_empty_push_indices. }
    assert (Hx : Pitch.xlim (Pitch.tick_frame n (Pitch.init p)) =
                 x_limits (range (len (Pitch.x_idx s)))).
    { unfold Pitch.tick_frame. rewrite PitchFacts.pitch_update_xlim. reflexivity. }
    split; [exact Hl|]. rewrite Hx. split.
    + unfold x_limits, range. now rewrite length_map, length_seq.
    + apply x_limits_range. lia.
  - assert (Hl : len (Roll_Pitch.x_idx s) = Nat.min count WINDOW).
    { unfold s. destruct (RollPitchFacts.rp_run_init (S n) p) as [_ [_ ->]].
      apply len_empty_push_indices. }
    assert (Hx : Roll_Pitch.xlim (Roll_Pitch.tick_frame n (Roll_Pitch.init p)) =
                 x_limits (range (len (Roll_Pitch.x_idx s)))).
    { unfold Roll_Pitch.tick_frame. rewrite RollPitchFacts.rp_update_xlim.
      reflexivity. }
    split; [exact Hl|]. rewrite Hx. split.
    + unfold x_limits, range. now rewrite length_map, length_seq.
    + apply x_limits_range. lia.
  - assert (Hl : len (Roll_Pitch_Yaw.x_idx s) = Nat.min count WINDOW).
    { unfold s. destruct (RollPitchYawFacts.rpy_run_init (S n) p) as [_ [_ [_ ->]]].
      apply len_empty_push_indices. }
    assert (Hx : Roll_Pitch_Yaw.xlim
                   (Roll_Pitch_Yaw.tick_frame n (Roll_Pitch_Yaw.init p)) =
                 x_limits (range (len (Roll_Pitch_Yaw.x_idx s)))).
    { unfold Roll_Pitch_Yaw.tick_frame. rewrite RollPitchYawFacts.rpy_update_xlim.
      reflexivity. }
    split; [exact Hl|]. rewrite Hx. split.
    + unfold x_limits, range. now rewrite length_map, length_seq.
    + apply x_limits_range. lia.
Qed.

(** C1. The code at 260 accepted samples: thirteen ticks of the
    three-axis script over 260 well-formed lines accept 260 samples, and
    the bounds of the last tick are [0, 200], where the scrolling
    formula over the count of accepted samples gives [60, 260]. *)
Lemma x_limits_after_260_samples :
  let p := repeat (text_line "1.0,2.0,3.0") 260 in
  count_accepted Roll_Pitch_Yaw.accepted (consumed Roll_Pitch_Yaw.BATCH 13 p)
    = 260%nat /\
  Roll_Pitch_Yaw.xlim (Roll_Pitch_Yaw.tick_frame 12 (Roll_Pitch_Yaw.init p))
    = (0, 200)%Z /\
  Roll_Pitch_Yaw.xlim (Roll_Pitch_Yaw.tick_frame 12 (Roll_Pitch_Yaw.init p))
    <> (Z.max 0 (260 - Z.of_nat WINDOW), Z.max (Z.of_nat WINDOW) 260).
Proof.
  split; [vm_compute; reflexivity|].
  split; [vm_compute; reflexivity|].
  vm_compute. discriminate.
Qed.

Lemma push_indices_values k :
  push_indices k (empty WINDOW) =
  extend (map (fun i => (Z.of_nat (Nat.min i WINDOW) + 1)%Z) (seq 0 k))
         (empty WINDOW).
Proof.
  rewrite push_indices_extend by apply bounded_empty.
  cbn [maxlen empty]. unfold len. cbn [items empty List.length].
  rewrite pushed_indices_closed by lia. reflexivity.
Qed.

(** C2. What the code pushes to the index buffer: for the [i]-th
    accepted sample since the start, counted from 0, the value
    [min(i, WINDOW) + 1], that is 1, 2, ..., 200, 201, 201, 201, ...; and at
    202 accepted samples, in each script, the last two values in the
    index buffer are both 201. *)
Theorem index_repeats_past_window :
  (forall p n,
      Pitch.x_idx (Pitch.run n (Pitch.init p)) =
      extend (map (fun i => (Z.of_nat (Nat.min i WINDOW) + 1)%Z)
                  (seq 0 (count_accepted Pitch.accepted
                                         (consumed Pitch.BATCH n p))))
             (empty WINDOW)) /\
  (forall p n,
      Roll_Pitch.x_idx (Roll_Pitch.run n (Roll_Pitch.init p)) =
      extend (map (fun i => (Z.of_nat (Nat.min i WINDOW) + 1)%Z)
                  (seq 0 (count_accepted Roll_Pitch.accepted
                                         (consumed Roll_Pitch.BATCH n p))))
             (empty WINDOW)) /\
  (forall p n,
      Roll_Pitch_Yaw.x_idx (Roll_Pitch_Yaw.run n (Roll_Pitch_Yaw.init p)) =
      extend (map (fun i => (Z.of_nat (Nat.min i WINDOW) + 1)%Z)
                  (seq 0 (count_accepted Roll_Pitch_Yaw.accepted
                                         (consumed Roll_Pitch_Yaw.BATCH n p))))
             (empty WINDOW)) /\
  let p := repeat (text_line "1.0,2.0,3.0") 202 in
  (count_accepted Pitch.accepted (consumed Pitch.BATCH 41 p) = 202%nat /\
   skipn 198 (snapshot (Pitch.x_idx (Pitch.run 41 (Pitch.init p))))
     = [201; 201]%Z) /\
  (count_accepted Roll_Pitch.accepted (consumed Roll_Pitch.BATCH 11 p) = 202%nat /\
   skipn 198 (snapshot (Roll_Pitch.x_idx (Roll_Pitch.run 11 (Roll_Pitch.init p))))
     = [201; 201]%Z) /\
  (count_accepted Roll_Pitch_Yaw.accepted (consumed Roll_Pitch_Yaw.BATCH 11 p)
     = 202%nat /\
   skipn 198 (snapshot (Roll_Pitch_Yaw.x_idx
                          (Roll_Pitch_Yaw.run 11 (Roll_Pitch_Yaw.init p))))
     = [201; 201]%Z).
Proof.
  split; [|split; [|split]].
  - intros p n. destruct (PitchFacts.pitch_run_init n p) as [_ ->].
    apply push_indices_values.
  - intros p n. destruct (RollPitchFacts.rp_run_init n p) as [_ [_ ->]].
    apply push_indices_values.
  - intros p n. destruct (RollPitchYawFacts.rpy_run_init n p) as [_ [_ [_ ->]]].
    apply push_indices_values.
  - intro p. repeat split; vm_compute; reflexivity.
Qed.

(** C8. After any number of ticks from the start the channel buffers and
    the index buffer hold the same number of items, in each script; one
    line either leaves every buffer as it is, when it does not parse, or
    appends one float to every channel buffer and one index to the index
    buffer. *)
Theorem channel_buffers_in_step :
  (forall p n,
      let s := Roll_Pitch_Yaw.run n (Roll_Pitch_Yaw.init p) in
      len (Roll_Pitch_Yaw.pitch_buf s) = len (Roll_Pitch_Yaw.x_idx s) /\
      len (Roll_Pitch_Yaw.roll_buf s) = len (Roll_Pitch_Yaw.x_idx s) /\
      len (Roll_Pitch_Yaw.yaw_buf s) = len (Roll_Pitch_Yaw.x_idx s)) /\
  (forall raw pb rb yb xi,
      (Roll_Pitch_Yaw.parse_line raw = (None, None, None) /\
       Roll_Pitch_Yaw.loop_body raw (pb, rb, yb, xi) = (pb, rb, yb, xi)) \/
      (exists pitch roll yaw,
          Roll_Pitch_Yaw.parse_line raw = (Some pitch, Some roll, Some yaw) /\
          Roll_Pitch_Yaw.loop_body raw (pb, rb, yb, xi) =
          (append (Some pitch) pb, append (Some roll) rb,
           append (Some yaw) yb, push_index xi))) /\
  (forall p n,
      let s := Roll_Pitch.run n (Roll_Pitch.init p) in
      len (Roll_Pitch.pitch_buf s) = len (Roll_Pitch.x_idx s) /\
      len (Roll_Pitch.roll_buf s) = len (Roll_Pitch.x_idx s)) /\
  (forall raw pb rb xi,
      (Roll_Pitch.parse_line raw = (None, None) /\
       Roll_Pitch.loop_body raw (pb, rb, xi) = (pb, rb, xi)) \/
      (exists pitch roll,
          Roll_Pitch.parse_line raw = (Some pitch, Some roll) /\
          Roll_Pitch.loop_body raw (pb, rb, xi) =
          (append (Some pitch) pb, append (Some roll) rb, push_index xi))) /\
  (forall p n,
      let s := Pitch.run n (Pitch.init p) in
      len (Pitch.pitch_buf s) = len (Pitch.x_idx s)) /\
  (forall raw pb xi,
      (Pitch.parse_line raw = None /\ Pitch.loop_body raw (pb, xi) = (pb, xi)) \/
      (exists pitch,
          Pitch.parse_line raw = Some pitch /\
          Pitch.loop_body raw (pb, xi) = (append (Some pitch) pb, push_index xi))).
Proof.
  split; [|split; [|split; [|split; [|split]]]].
  - intros p n s. unfold s.
    destruct (RollPitchYawFacts.rpy_run_init n p) as [-> [-> [-> ->]]].
    rewrite !len_empty_extend, len_empty_push_indices, !length_map.
    now rewrite RollPitchYawFacts.rpy_length_samples.
  - intros raw pb rb yb xi. unfold Roll_Pitch_Yaw.loop_body.
    destruct (ParserFacts.rpy_parse_line_whole raw) as [E|[pitch [roll [yaw E]]]];
      rewrite E; [left; now split|right]. now exists pitch, roll, yaw.
  - intros p n s. unfold s.
    destruct (RollPitchFacts.rp_run_init n p) as [-> [-> ->]].
    rewrite !len_empty_extend, len_empty_push_indices, !length_map.
    now rewrite RollPitchFacts.rp_length_samples.
  - intros raw pb rb xi. unfold Roll_Pitch.loop_body.
    destruct (ParserFacts.roll_pitch_parse_line_whole raw) as [E|[pitch [roll E]]];
      rewrite E; [left; now split|right]. now exists pitch, roll.
  - intros p n s. unfold s.
    destruct (PitchFacts.pitch_run_init n p) as [-> ->].
    rewrite len_empty_extend, len_empty_push_indices.
    now rewrite PitchFacts.pitch_length_samples.
  - intros raw pb xi. unfold Pitch.loop_body.
    destruct (Pitch.parse_line raw) as [pitch|]; [right|left; now split].
    now exists pitch.
Qed.

End DriverClaims.

(** ** The pose of the table *)

Module PoseFacts.
Import Py Np Table PoseSpec.
Open Scope R_scope.

Lemma radians_to_radians deg : radians deg = to_radians deg.
Proof. unfold radians, to_radians. field. Qed.

(** Equalities of arrays of reals, coordinate by coordinate. *)
Ltac reals :=
  try reflexivity;
  lazymatch goal with
  | |- @eq R _ _ => ring
  | |- _ => progress f_equal; reals
  end.

Ltac unfold_spec :=
  cbv [pose_row pose_vertex apply3 vec_mat mul3 transpose3 col1 col2 col3 dot3
       to_row of_row rows of_rows vx vy vz row1 row2 row3 nth
       composed composed_with Rx3 Ry3 Rz3 I3 identity det det3 lifted].

Lemma rotate_and_lift_rows (M : mat3) :
  rotate_and_lift (rows M) =
  Some (map (pose_row M) tabletop, map (map (pose_row M)) legs).
Proof.
  destruct M as [[a b c] [d e f] [g h i]].
  unfold rotate_and_lift.
  cbn -[tw td th leg_w leg_h leg_inset lift pose_row].
  unfold_spec. reals.
Qed.

Lemma rpy_rotation_rows pitch roll yaw :
  Roll_Pitch_Yaw.rotation pitch roll yaw = Some (rows (composed pitch roll yaw)).
Proof.
  unfold Roll_Pitch_Yaw.rotation, composed, composed_with.
  rewrite !radians_to_radians.
  generalize (to_radians pitch) (to_radians roll) (to_radians yaw).
  intros a b c. cbn. unfold_spec. reals.
Qed.

Lemma rp_rotation_rows pitch roll :
  Roll_Pitch.rotation pitch roll = Some (rows (composed_with I3 pitch roll)).
Proof.
  unfold Roll_Pitch.rotation, composed_with.
  rewrite !radians_to_radians.
  generalize (to_radians pitch) (to_radians roll).
  intros a b. cbn. unfold_spec. reals.
Qed.

Lemma rpy_create_table_vertices pitch roll yaw :
  Roll_Pitch_Yaw.create_table_vertices pitch roll yaw =
  Some (map (pose_row (composed pitch roll yaw)) tabletop,
        map (map (pose_row (composed pitch roll yaw))) legs).
Proof.
  unfold Roll_Pitch_Yaw.create_table_vertices.
  rewrite rpy_rotation_rows. cbn [bind]. apply rotate_and_lift_rows.
Qed.

Lemma rp_create_table_vertices pitch roll :
  Roll_Pitch.create_table_vertices pitch roll =
  Some (map (pose_row (composed_with I3 pitch roll)) tabletop,
        map (map (pose_row (composed_with I3 pitch roll))) legs).
Proof.
  unfold Roll_Pitch.create_table_vertices.
  rewrite rp_rotation_rows. cbn [bind]. apply rotate_and_lift_rows.
Qed.

(** *** Algebra of three-by-three matrices *)

Ltac mat3 :=
  repeat match goal with
         | M : mat3 |- _ => destruct M
         | v : vec3 |- _ => destruct v
         end;
  unfold_spec; reals.

Lemma mul3_assoc A B C : mul3 (mul3 A B) C = mul3 A (mul3 B C).
Proof. mat3. Qed.

Lemma transpose3_mul3 A B :
  transpose3 (mul3 A B) = mul3 (transpose3 B) (transpose3 A).
Proof. mat3. Qed.

Lemma mul3_I3_l A : mul3 I3 A = A.
Proof. mat3. Qed.

Lemma det3_mul3 A B : det3 (mul3 A B) = det3 A * det3 B.
Proof. mat3. Qed.

Lemma det3_I3 : det3 I3 = 1.
Proof. mat3. Qed.

Lemma orthogonal_I3 : orthogonal I3.
Proof. unfold orthogonal. mat3. Qed.

Lemma orthogonal_mul3 A B : orthogonal A -> orthogonal B -> orthogonal (mul3 A B).
Proof.
  unfold orthogonal. intros HA HB.
  rewrite transpose3_mul3, mul3_assoc, <- (mul3_assoc (transpose3 A) A B).
  now rewrite HA, mul3_I3_l.
Qed.

Lemma cos_sin_square a : cos a * cos a + sin a * sin a = 1.
Proof.
  generalize (sin2_cos2 a). unfold Rsqr. intro H. rewrite <- H. ring.
Qed.

(** The same, with [cos^2 + sin^2 = 1] among the hypotheses. *)
Ltac trig_reals :=
  try reflexivity;
  lazymatch goal with
  | |- @eq R _ _ => first [ring | lra | nra]
  | |- _ => progress f_equal; trig_reals
  end.

Ltac trig a :=
  unfold_spec;
  generalize (cos_sin_square a); generalize (cos a) (sin a);
  intros c s H; trig_reals.

Lemma orthogonal_Rx3 a : orthogonal (Rx3 a).
Proof. unfold orthogonal. trig a. Qed.

Lemma orthogonal_Ry3 a : orthogonal (Ry3 a).
Proof. unfold orthogonal. trig a. Qed.

Lemma orthogonal_Rz3 a : orthogonal (Rz3 a).
Proof. unfold orthogonal. trig a. Qed.

Lemma det3_Rx3 a : det3 (Rx3 a) = 1.
Proof. trig a. Qed.

Lemma det3_Ry3 a : det3 (Ry3 a) = 1.
Proof. trig a. Qed.

Lemma det3_Rz3 a : det3 (Rz3 a) = 1.
Proof. trig a. Qed.

Lemma orthogonal_composed_with Z pitch roll :
  orthogonal Z -> orthogonal (composed_with Z pitch roll).
Proof.
  intro HZ. unfold composed_with.
  repeat apply orthogonal_mul3; auto using orthogonal_Rx3, orthogonal_Ry3.
Qed.

Lemma det3_composed_with Z pitch roll :
  det3 Z = 1 -> det3 (composed_with Z pitch roll) = 1.
Proof.
  intro HZ. unfold composed_with.
  rewrite !det3_mul3, HZ, det3_Rx3, det3_Ry3. ring.
Qed.

(** *** Arrays and matrices *)

Lemma transpose_rows M : transpose (rows M) = rows (transpose3 M).
Proof. destruct M as [[a b c] [d e f] [g h i]]. reflexivity. Qed.

Lemma matmul_rows A B : matmul (rows A) (rows B) = Some (rows (mul3 A B)).
Proof.
  destruct A as [[a b c] [d e f] [g h i]].
  destruct B as [[a' b' c'] [d' e' f'] [g' h' i']].
  cbn. unfold_spec. reals.
Qed.

Lemma of_rows_rows M : of_rows (rows M) = M.
Proof. now destruct M as [[a b c] [d e f] [g h i]]. Qed.

Lemma orthogonal_rows M :
  orthogonal M -> matmul (transpose (rows M)) (rows M) = Some identity.
Proof.
  intro H. rewrite transpose_rows, matmul_rows. unfold orthogonal in H.
  now rewrite H.
Qed.

(** *** Distances *)

Lemma dist_rows u v :
  dist (to_row u) (to_row v) =
  sqrt (Rsqr (vx u - vx v) + Rsqr (vy u - vy v) + Rsqr (vz u - vz v)).
Proof.
  destruct u, v. unfold dist. cbn. f_equal. ring.
Qed.

Lemma pose_vertex_isometry M u v :
  orthogonal M ->
  dist (to_row (pose_vertex M u)) (to_row (pose_vertex M v)) =
  dist (to_row u) (to_row v).
Proof.
  intro H. rewrite !dist_rows. f_equal.
  destruct M as [[a b c] [d e f] [g h i]], u as [x y z], v as [x' y' z'].
  unfold orthogonal in H. revert H. unfold_spec. intro H.
  injection H as H11 H12 H13 H21 H22 H23 H31 H32 H33.
  unfold Rsqr.
  transitivity
    ((x - x') * (x - x') * (a * a + d * d + g * g) +
     (y - y') * (y - y') * (b * b + e * e + h * h) +
     (z - z') * (z - z') * (c * c + f * f + i * i) +
     2 * (x - x') * (y - y') * (a * b + d * e + g * h) +
     2 * (x - x') * (z - z') * (a * c + d * f + g * i) +
     2 * (y - y') * (z - z') * (b * c + e * f + h * i)); [ring|].
  rewrite H11, H22, H33, H12, H13, H23. ring.
Qed.

Lemma to_row_of_row r : List.length r = 3%nat -> to_row (of_row r) = r.
Proof.
  destruct r as [|x [|y [|z [|w r]]]]; try discriminate. reflexivity.
Qed.

Lemma pose_row_isometry M u v :
  orthogonal M ->
  List.length u = 3%nat -> List.length v = 3%nat ->
  dist (pose_row M u) (pose_row M v) = dist u v.
Proof.
  intros H Hu Hv. unfold pose_row. rewrite pose_vertex_isometry by assumption.
  now rewrite !to_row_of_row.
Qed.

Lemma pairwise_distances_pose M l :
  orthogonal M ->
  Forall (fun r => List.length r = 3%nat) l ->
  pairwise_distances (map (pose_row M) l) = pairwise_distances l.
Proof.
  intros H Hl. unfold pairwise_distances. rewrite map_map.
  rewrite Forall_forall in Hl.
  apply map_ext_in. intros u Hu. rewrite map_map.
  apply map_ext_in. intros v Hv.
  apply pose_row_isometry; auto.
Qed.

Lemma base_vertices_shape :
  Forall (fun r => List.length r = 3%nat) (vertices (tabletop, legs)).
Proof. unfold vertices. cbn. repeat constructor. Qed.

Lemma vertices_pose M :
  vertices (map (pose_row M) tabletop, map (map (pose_row M)) legs) =
  map (pose_row M) (vertices (tabletop, legs)).
Proof.
  unfold vertices. cbn [fst snd]. rewrite map_app, concat_map. reflexivity.
Qed.

Lemma lifted_pose_row r :
  List.length r = 3%nat -> pose_row I3 r = lifted r.
Proof.
  destruct r as [|x [|y [|z [|w r]]]]; try discriminate. intros _.
  unfold_spec. reals.
Qed.

Lemma map_lifted_pose_row l :
  Forall (fun r => List.length r = 3%nat) l ->
  map (pose_row I3) l = map lifted l.
Proof.
  intro H. rewrite Forall_forall in H.
  apply map_ext_in. intros r Hr. apply lifted_pose_row. auto.
Qed.

Lemma to_radians_0 : to_radians 0 = 0.
Proof. unfold to_radians. field. Qed.

Lemma composed_0 : composed 0 0 0 = I3.
Proof.
  unfold composed, composed_with. rewrite to_radians_0.
  unfold_spec. rewrite cos_0, sin_0. reals.
Qed.

Lemma composed_with_I3_0 : composed_with I3 0 0 = I3.
Proof.
  unfold composed_with. rewrite to_radians_0.
  unfold_spec. rewrite cos_0, sin_0. reals.
Qed.

Lemma tabletop_shape : Forall (fun r => List.length r = 3%nat) tabletop.
Proof. repeat constructor. Qed.

Lemma legs_shape :
  Forall (Forall (fun r => List.length r = 3%nat)) legs.
Proof. cbn. repeat constructor. Qed.

Lemma create_table_faces_pose (f : vec -> vec) :
  exists base_faces,
    create_table_faces tabletop legs = Some base_faces /\
    List.length base_faces = 30%nat /\
    Forall (fun face => List.length face = 4%nat) base_faces /\
    create_table_faces (map f tabletop) (map (map f) legs) =
      Some (map (map f) base_faces).
Proof.
  eexists. split; [reflexivity|]. split; [reflexivity|].
  split; [repeat constructor|]. reflexivity.
Qed.

End PoseFacts.

(** ** Claims about the pose *)

Module PoseClaims.
Import Py Np Table PoseSpec PoseFacts.
Open Scope R_scope.

(** C4. With the angles turned into radians, the three-axis script
    composes [R = Rz . Rx . Ry], which applies the pitch rotation first,
    then roll, then yaw, and the pitch and roll script composes the same
    product with the identity in the place of [Rz]; each maps every
    vertex [v] of the tabletop and of the legs to [v . R^T] and adds the
    lift to the third coordinate. *)
Theorem pose_is_Rz_Rx_Ry_then_lift :
  (forall pitch roll yaw,
      let Rm := mul3 (mul3 (Rz3 (to_radians yaw)) (Rx3 (to_radians roll)))
                     (Ry3 (to_radians pitch)) in
      Roll_Pitch_Yaw.rotation pitch roll yaw = Some (rows Rm) /\
      Roll_Pitch_Yaw.create_table_vertices pitch roll yaw =
        Some (map (pose_row Rm) tabletop, map (map (pose_row Rm)) legs) /\
      (forall v,
          apply3 Rm v =
          apply3 (Rz3 (to_radians yaw))
                 (apply3 (Rx3 (to_radians roll))
                         (apply3 (Ry3 (to_radians pitch)) v)))) /\
  (forall pitch roll,
      let Rm := mul3 (mul3 I3 (Rx3 (to_radians roll)))
                     (Ry3 (to_radians pitch)) in
      Roll_Pitch.rotation pitch roll = Some (rows Rm) /\
      Roll_Pitch.create_table_vertices pitch roll =
        Some (map (pose_row Rm) tabletop, map (map (pose_row Rm)) legs) /\
      (forall v,
          apply3 Rm v =
          apply3 (Rx3 (to_radians roll)) (apply3 (Ry3 (to_radians pitch)) v))) /\
  (forall M x y z,
      pose_row M [x; y; z] =
      [ dot3 (V3 x y z) (row1 M); dot3 (V3 x y z) (row2 M);
        dot3 (V3 x y z) (row3 M) + 1.5 ]).
Proof.
  split; [|split].
  - intros pitch roll yaw Rm. split; [apply rpy_rotation_rows|].
    split; [apply rpy_create_table_vertices|].
    intro v. unfold Rm. generalize (to_radians yaw) (to_radians roll)
                                   (to_radians pitch).
    intros a b c. destruct v as [x y z]. unfold_spec. reals.
  - intros pitch roll Rm. split; [apply rp_rotation_rows|].
    split; [apply rp_create_table_vertices|].
    intro v. unfold Rm. generalize (to_radians roll) (to_radians pitch).
    intros b c. destruct v as [x y z]. unfold_spec. reals.
  - intros [[a b c] [d e f] [g h i]] x y z. reflexivity.
Qed.

(** C7. At the angles [(0, 0, 0)] the composed rotation is the identity
    matrix, the vertices are those of the base mesh with the lift added
    to the third coordinate and nothing else, and the faces are the
    faces of the base mesh, vertex for vertex: thirty faces of four
    vertices.  The same holds for the pitch and roll script at [(0, 0)]. *)
Theorem rest_pose_is_lifted_base :
  Roll_Pitch_Yaw.rotation 0 0 0 = Some identity /\
  Roll_Pitch_Yaw.create_table_vertices 0 0 0 =
    Some (map lifted tabletop, map (map lifted) legs) /\
  (exists base_faces,
      Roll_Pitch_Yaw.create_table_faces tabletop legs = Some base_faces /\
      List.length base_faces = 30%nat /\
      Forall (fun face => List.length face = 4%nat) base_faces /\
      Roll_Pitch_Yaw.create_table_faces
        (map lifted tabletop) (map (map lifted) legs) =
        Some (map (map lifted) base_faces)) /\
  Roll_Pitch.rotation 0 0 = Some identity /\
  Roll_Pitch.create_table_vertices 0 0 =
    Some (map lifted tabletop, map (map lifted) legs).
Proof.
  assert (Hl : map (map (pose_row I3)) legs = map (map lifted) legs).
  { apply map_ext_in. intros l Hin. apply map_lifted_pose_row.
    pose proof legs_shape as Hs. rewrite Forall_forall in Hs. auto. }
  split; [|split; [|split; [|split]]].
  - rewrite rpy_rotation_rows, composed_0. reflexivity.
  - rewrite rpy_create_table_vertices, composed_0.
    rewrite (map_lifted_pose_row tabletop_shape), Hl. reflexivity.
  - apply create_table_faces_pose.
  - rewrite rp_rotation_rows, composed_with_I3_0. reflexivity.
  - rewrite rp_create_table_vertices, composed_with_I3_0.
    rewrite (map_lifted_pose_row tabletop_shape), Hl. reflexivity.
Qed.

Lemma shape3_map_pose_row M n m :
  List.length m = n -> shape3 n (map (pose_row M) m).
Proof.
  intro H. split; [now rewrite length_map|].
  rewrite Forall_forall. intros r Hr. apply in_map_iff in Hr.
  destruct Hr as [r' [<- _]]. reflexivity.
Qed.

(** C9. For every triple of real angles, whatever their size, the pose
    function returns a pose and raises nothing: a tabletop of eight
    vertices and four legs of eight vertices, three coordinates each,
    from which the thirty faces are built; and equal angles give equal
    poses. *)
Theorem pose_total_and_deterministic :
  (forall pitch roll yaw,
      exists tabletop_rot legs_rot faces,
        Roll_Pitch_Yaw.create_table_vertices pitch roll yaw =
          Some (tabletop_rot, legs_rot) /\
        shape3 8 tabletop_rot /\
        List.length legs_rot = 4%nat /\
        Forall (shape3 8) legs_rot /\
        Roll_Pitch_Yaw.create_table_faces tabletop_rot legs_rot = Some faces /\
        List.length faces = 30%nat) /\
  (forall pitch roll yaw pitch' roll' yaw',
      pitch = pitch' -> roll = roll' -> yaw = yaw' ->
      Roll_Pitch_Yaw.create_table_vertices pitch roll yaw =
      Roll_Pitch_Yaw.create_table_vertices pitch' roll' yaw').
Proof.
  split.
  - intros pitch roll yaw.
    destruct (create_table_faces_pose (pose_row (composed pitch roll yaw)))
      as [base_faces [_ [Hn [_ Hf]]]].
    exists (map (pose_row (composed pitch roll yaw)) tabletop),
           (map (map (pose_row (composed pitch roll yaw))) legs),
           (map (map (pose_row (composed pitch roll yaw))) base_faces).
    split; [apply rpy_create_table_vertices|].
    split; [now apply shape3_map_pose_row|].
    split; [reflexivity|].
    split.
    + rewrite Forall_forall. intros l Hl. apply in_map_iff in Hl.
      destruct Hl as [l' [<- Hin]]. apply shape3_map_pose_row.
      cbn in Hin. decompose [or] Hin; subst; try reflexivity. contradiction.
    + split; [exact Hf|]. now rewrite length_map.
  - intros pitch roll yaw pitch' roll' yaw' -> -> ->. reflexivity.
Qed.

Lemma pose_total_and_deterministic_witness :
  Roll_Pitch_Yaw.create_table_vertices 190 (-400) 720 =
  Roll_Pitch_Yaw.create_table_vertices 190 (-400) 720.
Proof.
  apply (proj2 pose_total_and_deterministic); reflexivity.
Defined.

(** In exact real arithmetic, of which the binary64 arithmetic of the
    scripts is a rounding: the composed matrix [R] is orthogonal,
    [R^T . R] being the identity, and has determinant 1, and the pose
    keeps the distance between any two vertices of the mesh.  This holds
    for [Rz . Rx . Ry] and for [Rx . Ry].  On the floats of the program
    these equalities hold up to rounding only, and not at all for an
    angle that is infinite or not a number. *)
Theorem pose_is_rigid_motion :
  (forall pitch roll yaw,
      exists Rm pose,
        Roll_Pitch_Yaw.rotation pitch roll yaw = Some Rm /\
        matmul (transpose Rm) Rm = Some identity /\
        det Rm = 1 /\
        Roll_Pitch_Yaw.create_table_vertices pitch roll yaw = Some pose /\
        pairwise_distances (vertices pose) =
        pairwise_distances (vertices (tabletop, legs))) /\
  (forall pitch roll,
      exists Rm pose,
        Roll_Pitch.rotation pitch roll = Some Rm /\
        matmul (transpose Rm) Rm = Some identity /\
        det Rm = 1 /\
        Roll_Pitch.create_table_vertices pitch roll = Some pose /\
        pairwise_distances (vertices pose) =
        pairwise_distances (vertices (tabletop, legs))).
Proof.
  split.
  - intros pitch roll yaw.
    assert (Ho : orthogonal (composed pitch roll yaw))
      by apply orthogonal_composed_with, orthogonal_Rz3.
    eexists; eexists.
    split; [apply rpy_rotation_rows|].
    split; [now apply orthogonal_rows|].
    split; [unfold det; rewrite of_rows_rows;
            apply det3_composed_with, det3_Rz3|].
    split; [apply rpy_create_table_vertices|].
    rewrite vertices_pose.
    apply pairwise_distances_pose; [exact Ho|apply base_vertices_shape].
  - intros pitch roll.
    assert (Ho : orthogonal (composed_with I3 pitch roll))
      by apply orthogonal_composed_with, orthogonal_I3.
    eexists; eexists.
    split; [apply rp_rotation_rows|].
    split; [now apply orthogonal_rows|].
    split; [unfold det; rewrite of_rows_rows;
            apply det3_composed_with, det3_I3|].
    split; [apply rp_create_table_vertices|].
    rewrite vertices_pose.
    apply pairwise_distances_pose; [exact Ho|apply base_vertices_shape].
Qed.

End PoseClaims.

(** * Further properties of the scripts *)

(** ** The line parsers: blank lines, padding, commas, agreement *)

Module ParserExtras.
Import PyStr PyFloat Py ParserFacts.

Lemma lstrip_by_all ws s :
  Forall (fun c => ws c = true) s -> lstrip_by ws s = [].
Proof.
  induction 1 as [|c s Hc _ IH]; [reflexivity|].
  cbn [lstrip_by]. now rewrite Hc.
Qed.

Lemma lstrip_by_pad ws pre s :
  Forall (fun c => ws c = true) pre ->
  lstrip_by ws (pre ++ s) = lstrip_by ws s.
Proof.
  induction 1 as [|c pre Hc _ IH]; [reflexivity|].
  cbn [app lstrip_by]. now rewrite Hc.
Qed.

Lemma lstrip_by_app ws s post :
  Forall (fun c => ws c = true) post ->
  lstrip_by ws (s ++ post) =
  match lstrip_by ws s with [] => [] | _ :: _ => lstrip_by ws s ++ post end.
Proof.
  intro Hp. induction s as [|c s IH].
  - cbn [app lstrip_by]. now apply lstrip_by_all.
  - cbn [app lstrip_by]. destruct (ws c); [exact IH|reflexivity].
Qed.

Lemma rstrip_by_pad ws s post :
  Forall (fun c => ws c = true) post ->
  rstrip_by ws (s ++ post) = rstrip_by ws s.
Proof.
  intro Hp. unfold rstrip_by. rewrite rev_app_distr.
  rewrite lstrip_by_pad; [reflexivity|]. now apply Forall_rev.
Qed.

Lemma strip_by_pad ws pre s post :
  Forall (fun c => ws c = true) pre ->
  Forall (fun c => ws c = true) post ->
  strip_by ws (pre ++ s ++ post) = strip_by ws s.
Proof.
  intros Hpre Hpost. unfold strip_by.
  rewrite lstrip_by_pad by assumption.
  rewrite lstrip_by_app by assumption.
  destruct (lstrip_by ws s) as [|c t]; [reflexivity|].
  now apply rstrip_by_pad.
Qed.

Lemma strip_all_space line : all_space line -> strip line = [].
Proof.
  intro H. unfold strip, strip_by. now rewrite (lstrip_by_all _ H).
Qed.

(** X1. A line made of white space only, the empty line among them,
    gives no sample in any of the three scripts. *)
Theorem blank_line_gives_no_sample :
  forall line,
    all_space line ->
    Pitch.parse_line line = None /\
    Roll_Pitch.parse_line line = (None, None) /\
    Roll_Pitch_Yaw.parse_line line = (None, None, None).
Proof.
  intros line H. apply strip_all_space in H.
  unfold Pitch.parse_line, Roll_Pitch.parse_line, Roll_Pitch_Yaw.parse_line.
  rewrite H. repeat split.
Qed.

Lemma blank_line_gives_no_sample_witness :
  Pitch.parse_line [" "%char; newline] = None /\
  Roll_Pitch.parse_line [" "%char; newline] = (None, None) /\
  Roll_Pitch_Yaw.parse_line [" "%char; newline] = (None, None, None).
Proof.
  apply (@blank_line_gives_no_sample [" "%char; newline]).
  repeat constructor.
Defined.

(** X2. White space before and after a line, such as the line end that
    the port delivers, does not change what any of the parsers
    returns. *)
Theorem padding_does_not_change_sample :
  forall pre line post,
    all_space pre -> all_space post ->
    Pitch.parse_line (pre ++ line ++ post) = Pitch.parse_line line /\
    Roll_Pitch.parse_line (pre ++ line ++ post) = Roll_Pitch.parse_line line /\
    Roll_Pitch_Yaw.parse_line (pre ++ line ++ post) =
      Roll_Pitch_Yaw.parse_line line.
Proof.
  intros pre line post Hpre Hpost.
  assert (E : strip (pre ++ line ++ post) = strip line)
    by now apply strip_by_pad.
  unfold Pitch.parse_line, Roll_Pitch.parse_line, Roll_Pitch_Yaw.parse_line.
  rewrite E. repeat split.
Qed.

Lemma padding_does_not_change_sample_witness :
  Pitch.parse_line (of_string "  " ++ of_string "1.5,2.5" ++ [newline]) =
    Pitch.parse_line (of_string "1.5,2.5") /\
  Roll_Pitch.parse_line (of_string "  " ++ of_string "1.5,2.5" ++ [newline]) =
    Roll_Pitch.parse_line (of_string "1.5,2.5") /\
  Roll_Pitch_Yaw.parse_line (of_string "  " ++ of_string "1.5,2.5" ++ [newline]) =
    Roll_Pitch_Yaw.parse_line (of_string "1.5,2.5").
Proof.
  apply (@padding_does_not_change_sample
           (of_string "  ") (of_string "1.5,2.5") [newline]);
    repeat constructor.
Defined.

(** The number of fields is the number of separators plus one. *)
Lemma length_split sep s :
  List.length (split sep s) = S (count_occ ascii_dec s sep).
Proof.
  induction s as [|c s IH]; [reflexivity|].
  cbn [split count_occ].
  destruct (Ascii.eqb_spec c sep) as [->|Hne].
  - destruct (ascii_dec sep sep); [|contradiction]. cbn [List.length].
    now rewrite IH.
  - destruct (ascii_dec c sep); [contradiction|].
    destruct (split sep s) as [|p ps]; [discriminate|]. exact IH.
Qed.

(** X3. A line that the three-axis parser accepts has one or two commas
    after stripping, and a line that the pitch and roll parser accepts
    has at least one: a line without a comma gives a sample only in the
    pitch script. *)
Theorem accepted_lines_have_commas :
  forall line,
    (Roll_Pitch_Yaw.accepted line = true ->
     count_occ ascii_dec (strip line) comma = 1%nat \/
     count_occ ascii_dec (strip line) comma = 2%nat) /\
    (Roll_Pitch.accepted line = true ->
     (1 <= count_occ ascii_dec (strip line) comma)%nat).
Proof.
  intro line.
  pose proof (length_split comma (strip line)) as Hlen.
  split; intro Hacc.
  - unfold Roll_Pitch_Yaw.accepted in Hacc.
    destruct (Nat.eq_dec (List.length (split comma (strip line))) 3) as [E3|N3];
      [right; lia|].
    destruct (Nat.eq_dec (List.length (split comma (strip line))) 2) as [E2|N2];
      [left; lia|].
    rewrite (rpy_parse_line_other _ N3 N2) in Hacc. discriminate.
  - unfold Roll_Pitch.accepted in Hacc.
    destruct (Nat.le_gt_cases 2 (List.length (split comma (strip line))))
      as [Hge|Hlt]; [lia|].
    rewrite (roll_pitch_parse_line_short _ Hlt) in Hacc. discriminate.
Qed.

Lemma accepted_lines_have_commas_witness :
  (count_occ ascii_dec (strip (text_line "1.0,2.0,3.0")) comma = 1%nat \/
   count_occ ascii_dec (strip (text_line "1.0,2.0,3.0")) comma = 2%nat) /\
  (1 <= count_occ ascii_dec (strip (text_line "1.0,2.0")) comma)%nat.
Proof.
  split.
  - apply (proj1 (accepted_lines_have_commas (text_line "1.0,2.0,3.0"))).
    vm_compute. reflexivity.
  - apply (proj2 (accepted_lines_have_commas (text_line "1.0,2.0"))).
    vm_compute. reflexivity.
Defined.

(** X4. The parsers agree: a sample of the three-axis parser has the
    pitch and roll that the pitch and roll parser gives for the same
    line, and a sample of the pitch and roll parser has the pitch that
    the pitch parser gives. *)
Theorem parsers_agree_on_leading_fields :
  forall line,
    (forall pitch roll yaw,
        Roll_Pitch_Yaw.parse_line line = (Some pitch, Some roll, Some yaw) ->
        Roll_Pitch.parse_line line = (Some pitch, Some roll)) /\
    (forall pitch roll,
        Roll_Pitch.parse_line line = (Some pitch, Some roll) ->
        Pitch.parse_line line = Some pitch).
Proof.
  intro line. split.
  - intros pitch roll yaw H.
    destruct (split comma (strip line)) as [|a [|b [|c [|d l]]]] eqn:E.
    + rewrite rpy_parse_line_other in H by (rewrite E; discriminate).
      discriminate.
    + rewrite rpy_parse_line_other in H by (rewrite E; discriminate).
      discriminate.
    + rewrite (rpy_parse_line_two _ E) in H.
      rewrite (roll_pitch_parse_line_fields _ E).
      destruct (float_of_str a); [|discriminate].
      destruct (float_of_str b); [|discriminate].
      now inversion H.
    + rewrite (rpy_parse_line_three _ E) in H.
      rewrite (roll_pitch_parse_line_fields _ E).
      destruct (float_of_str a); [|discriminate].
      destruct (float_of_str b); [|discriminate].
      destruct (float_of_str c); [|discriminate].
      now inversion H.
    + rewrite rpy_parse_line_other in H by (rewrite E; discriminate).
      discriminate.
  - intros pitch roll H.
    destruct (split comma (strip line)) as [|a [|b l]] eqn:E.
    + rewrite roll_pitch_parse_line_short in H by (rewrite E; cbn; lia).
      discriminate.
    + rewrite roll_pitch_parse_line_short in H by (rewrite E; cbn; lia).
      discriminate.
    + rewrite (roll_pitch_parse_line_fields _ E) in H.
      rewrite (pitch_parse_line_fields _ E).
      destruct (float_of_str a); [|discriminate].
      destruct (float_of_str b); [|discriminate].
      now inversion H.
Qed.

Lemma parsers_agree_on_leading_fields_witness :
  Roll_Pitch.parse_line (text_line "10.0,5.0,0.0") = (Some (of_Z 10), Some (of_Z 5)) /\
  Pitch.parse_line (text_line "10.0,5.0") = Some (of_Z 10).
Proof.
  split.
  - apply (proj1 (parsers_agree_on_leading_fields (text_line "10.0,5.0,0.0"))
             (of_Z 10) (of_Z 5) (of_Z 0)).
    vm_compute. reflexivity.
  - apply (proj2 (parsers_agree_on_leading_fields (text_line "10.0,5.0"))
             (of_Z 10) (of_Z 5)).
    vm_compute. reflexivity.
Defined.

End ParserExtras.

(** ** The reading loop: what a tick takes from the port *)

Module SerialExtras.
Import PyStr Deque Serial Py DequeFacts DriverFacts.

Lemma firstn_plus {A : Type} (a b : nat) (l : list A) :
  firstn (a + b) l = firstn a l ++ firstn b (skipn a l).
Proof.
  revert l. induction a as [|a IH]; intro l; [reflexivity|].
  destruct l as [|x l]; [now rewrite !firstn_nil|].
  cbn [Nat.add firstn skipn app]. now rewrite IH.
Qed.

(** One batch takes a stretch of at most [n] reads from the front of the
    port: the lines of the stretch, and nothing behind it. *)
Lemma read_lines_prefix : forall n p,
  exists k, (k <= n)%nat /\
    fst (read_lines n p) = data_lines (firstn k p) /\
    snd (read_lines n p) = skipn k p.
Proof.
  induction n as [|n IH]; intro p.
  - exists O. repeat split; lia.
  - destruct p as [|raw p].
    + exists O. repeat split; lia.
    + destruct raw as [|c raw].
      * exists 1%nat. repeat split; lia.
      * destruct (IH p) as [k [Hk [Hf Hs]]].
        exists (S k). cbn [read_lines readline].
        destruct (read_lines n p) as [ls p'']. cbn [fst snd] in *.
        split; [lia|]. split; [|exact Hs].
        cbn [firstn]. unfold data_lines in *. cbn [filter timed_out negb].
        now rewrite Hf.
Qed.

Lemma length_read_lines : forall n p,
  (List.length (fst (read_lines n p)) <= n)%nat.
Proof.
  induction n as [|n IH]; intro p; [cbn; lia|].
  cbn [read_lines]. destruct (readline p) as [raw p'].
  destruct raw as [|c raw]; [cbn; lia|].
  specialize (IH p'). destruct (read_lines n p') as [ls p''].
  cbn [fst List.length] in *. lia.
Qed.

Lemma consumed_prefix batch : forall n p,
  exists k, (k <= n * batch)%nat /\
    consumed batch n p = data_lines (firstn k p) /\
    remaining batch n p = skipn k p.
Proof.
  induction n as [|n IH]; intro p.
  - exists O. repeat split; lia.
  - rewrite consumed_S. cbn [remaining].
    destruct (read_lines_prefix batch p) as [k1 [Hk1 [Hf Hs]]].
    rewrite Hf, Hs.
    destruct (IH (skipn k1 p)) as [k2 [Hk2 [Hc Hr]]].
    exists (k1 + k2)%nat. split; [lia|]. split.
    + rewrite Hc, firstn_plus. unfold data_lines. now rewrite filter_app.
    + rewrite Hr, skipn_skipn. f_equal. lia.
Qed.

(** X5. Ticks never lose, repeat or reorder a line: after [n] ticks a
    script has taken a stretch of at most [n * BATCH] reads from the
    front of the port, its buffers are those of handling the lines of
    that stretch once each in order, and the rest of the port is as it
    was.  [BATCH] is 5, 20 and 20. *)
Theorem ticks_take_a_prefix_of_the_port :
  (forall p n, exists k,
      (k <= n * 5)%nat /\
      Pitch.ser (Pitch.run n (Pitch.init p)) = skipn k p /\
      Pitch.bufs (Pitch.run n (Pitch.init p)) =
      for_each Pitch.loop_body (data_lines (firstn k p))
               (Pitch.bufs (Pitch.init p))) /\
  (forall p n, exists k,
      (k <= n * 20)%nat /\
      Roll_Pitch.ser (Roll_Pitch.run n (Roll_Pitch.init p)) = skipn k p /\
      Roll_Pitch.bufs (Roll_Pitch.run n (Roll_Pitch.init p)) =
      for_each Roll_Pitch.loop_body (data_lines (firstn k p))
               (Roll_Pitch.bufs (Roll_Pitch.init p))) /\
  (forall p n, exists k,
      (k <= n * 20)%nat /\
      Roll_Pitch_Yaw.ser (Roll_Pitch_Yaw.run n (Roll_Pitch_Yaw.init p)) =
        skipn k p /\
      Roll_Pitch_Yaw.bufs (Roll_Pitch_Yaw.run n (Roll_Pitch_Yaw.init p)) =
      for_each Roll_Pitch_Yaw.loop_body (data_lines (firstn k p))
               (Roll_Pitch_Yaw.bufs (Roll_Pitch_Yaw.init p))).
Proof.
  split; [|split]; intros p n.
  - destruct (consumed_prefix Pitch.BATCH n p) as [k [Hk [Hc Hr]]].
    destruct (iter_ticks Pitch.loop_body Pitch.bufs Pitch.ser
                (fun s => fst (Pitch.update s)) Pitch.BATCH
                PitchFacts.pitch_update_bufs PitchFacts.pitch_update_ser
                n (Pitch.init p)) as [Hb Hs].
    exists k. split; [exact Hk|]. split.
    + unfold Pitch.run. rewrite Hs. exact Hr.
    + unfold Pitch.run. rewrite Hb. cbn [Pitch.init Pitch.ser]. now rewrite Hc.
  - destruct (consumed_prefix Roll_Pitch.BATCH n p) as [k [Hk [Hc Hr]]].
    destruct (iter_ticks Roll_Pitch.loop_body Roll_Pitch.bufs Roll_Pitch.ser
                (fun s => fst (Roll_Pitch.update s)) Roll_Pitch.BATCH
                RollPitchFacts.rp_update_bufs RollPitchFacts.rp_update_ser
                n (Roll_Pitch.init p)) as [Hb Hs].
    exists k. split; [exact Hk|]. split.
    + unfold Roll_Pitch.run. rewrite Hs. exact Hr.
    + unfold Roll_Pitch.run. rewrite Hb. cbn [Roll_Pitch.init Roll_Pitch.ser].
      now rewrite Hc.
  - destruct (consumed_prefix Roll_Pitch_Yaw.BATCH n p) as [k [Hk [Hc Hr]]].
    destruct (iter_ticks Roll_Pitch_Yaw.loop_body Roll_Pitch_Yaw.bufs
                Roll_Pitch_Yaw.ser
                (fun s => fst (Roll_Pitch_Yaw.update s)) Roll_Pitch_Yaw.BATCH
                RollPitchYawFacts.rpy_update_bufs
                RollPitchYawFacts.rpy_update_ser
                n (Roll_Pitch_Yaw.init p)) as [Hb Hs].
    exists k. split; [exact Hk|]. split.
    + unfold Roll_Pitch_Yaw.run. rewrite Hs. exact Hr.
    + unfold Roll_Pitch_Yaw.run. rewrite Hb.
      cbn [Roll_Pitch_Yaw.init Roll_Pitch_Yaw.ser]. now rewrite Hc.
Qed.

(** X6. A tick whose first read times out, the port being used up or
    silent, leaves every buffer as it was, in each script. *)
Theorem idle_tick_keeps_buffers :
  (forall s,
      Pitch.ser s = [] \/ (exists rest, Pitch.ser s = [] :: rest) ->
      Pitch.bufs (fst (Pitch.update s)) = Pitch.bufs s) /\
  (forall s,
      Roll_Pitch.ser s = [] \/ (exists rest, Roll_Pitch.ser s = [] :: rest) ->
      Roll_Pitch.bufs (fst (Roll_Pitch.update s)) = Roll_Pitch.bufs s) /\
  (forall s,
      Roll_Pitch_Yaw.ser s = [] \/
      (exists rest, Roll_Pitch_Yaw.ser s = [] :: rest) ->
      Roll_Pitch_Yaw.bufs (fst (Roll_Pitch_Yaw.update s)) =
      Roll_Pitch_Yaw.bufs s).
Proof.
  split; [|split]; intros s H.
  - rewrite PitchFacts.pitch_update_bufs.
    destruct H as [->|[rest ->]]; reflexivity.
  - rewrite RollPitchFacts.rp_update_bufs.
    destruct H as [->|[rest ->]]; reflexivity.
  - rewrite RollPitchYawFacts.rpy_update_bufs.
    destruct H as [->|[rest ->]]; reflexivity.
Qed.

Lemma idle_tick_keeps_buffers_witness :
  Roll_Pitch_Yaw.bufs
    (fst (Roll_Pitch_Yaw.update
            (Roll_Pitch_Yaw.init [[]; text_line "1.0,2.0,3.0"]))) =
  Roll_Pitch_Yaw.bufs (Roll_Pitch_Yaw.init [[]; text_line "1.0,2.0,3.0"]).
Proof.
  apply (proj2 (proj2 idle_tick_keeps_buffers)).
  right. exists [text_line "1.0,2.0,3.0"]. reflexivity.
Defined.

End SerialExtras.

(** ** The buffers and the frames over the ticks *)

Module BufferExtras.
Import PyStr PyFloat Deque Serial Py DequeFacts DriverFacts ParserFacts
       SerialExtras.

Lemma snapshot_extend_empty {A : Type} (xs : list A) :
  snapshot (extend xs (empty WINDOW)) = last_window xs.
Proof.
  unfold snapshot, last_window.
  rewrite items_extend by apply bounded_empty. reflexivity.
Qed.

Lemma extend_snoc {A : Type} (xs : list A) x d :
  extend (xs ++ [x]) d = append x (extend xs d).
Proof. unfold extend. now rewrite fold_left_app. Qed.

Lemma latest_append {A : Type} (x : A) d :
  bounded d -> (0 < maxlen d)%nat -> latest (append x d) = Some x.
Proof.
  intros Hb Hm. unfold latest. rewrite items_append by assumption.
  rewrite skipn_app.
  unfold bounded, len in *.
  replace (S (List.length (items d)) - maxlen d - List.length (items d))%nat
    with O by lia.
  cbn [skipn]. now rewrite rev_app_distr.
Qed.

Lemma latest_extend_empty {A : Type} (xs : list A) :
  latest (extend xs (empty WINDOW)) = last_item xs.
Proof.
  unfold last_item. destruct xs as [|y ys] using rev_ind; [reflexivity|].
  rewrite extend_snoc, latest_append.
  - now rewrite rev_app_distr.
  - apply bounded_extend, bounded_empty.
  - rewrite maxlen_extend. cbn. unfold WINDOW. lia.
Qed.

Lemma nonempty_extend_empty {A : Type} (xs : list A) :
  nonempty (extend xs (empty WINDOW)) =
  match xs with [] => false | _ :: _ => true end.
Proof.
  pose proof (len_extend xs (bounded_empty (A:=A) WINDOW)) as H.
  unfold nonempty, len in *. cbn [empty items maxlen List.length] in H.
  destruct xs as [|x xs].
  - reflexivity.
  - destruct (items (extend (x :: xs) (empty WINDOW))); [|reflexivity].
    cbn [List.length] in H. unfold WINDOW in H. lia.
Qed.

Lemma last_item_map {A B : Type} (f : A -> B) (l : list A) :
  last_item (map f l) = option_map f (last_item l).
Proof.
  unfold last_item. rewrite <- map_rev. now destruct (rev l).
Qed.

Lemma last_item_nil_iff {A : Type} (l : list A) :
  last_item l = None -> l = [].
Proof.
  unfold last_item. intro H. destruct (rev l) eqn:E; [|discriminate].
  apply (f_equal (@rev A)) in E. now rewrite rev_involutive in E.
Qed.

Lemma Forall_last_window {A : Type} (P : A -> Prop) (l : list A) :
  Forall P l -> Forall P (last_window l).
Proof.
  intro H. unfold last_window.
  rewrite <- (firstn_skipn (List.length l - WINDOW) l) in H.
  now apply Forall_app in H.
Qed.

Lemma length_last_window {A : Type} (l : list A) :
  List.length (last_window l) = Nat.min (List.length l) WINDOW.
Proof. unfold last_window. rewrite length_skipn. lia. Qed.

(** *** The frame of a tick, from the state after it *)

Lemma pitch_update_frame s :
  snd (Pitch.update s) =
  let s' := fst (Pitch.update s) in
  let xs := range (len (Pitch.x_idx s')) in
  Pitch.mkFrame (xs, snapshot (Pitch.pitch_buf s')) (x_limits xs)
    (if nonempty (Pitch.pitch_buf s') then latest (Pitch.pitch_buf s')
     else None).
Proof.
  unfold Pitch.update.
  now destruct (read_loop _ _ _ _) as [[pb xi] p'].
Qed.

Lemma rp_update_frame s :
  snd (Roll_Pitch.update s) =
  let s' := fst (Roll_Pitch.update s) in
  let xs := range (len (Roll_Pitch.x_idx s')) in
  Roll_Pitch.mkFrame
    (xs, snapshot (Roll_Pitch.pitch_buf s'))
    (xs, snapshot (Roll_Pitch.roll_buf s')) (x_limits xs)
    (if nonempty (Roll_Pitch.pitch_buf s')
     then (current_pitch <- latest (Roll_Pitch.pitch_buf s') ;;
           current_roll <- latest (Roll_Pitch.roll_buf s') ;;
           Some (current_pitch, current_roll))
     else None).
Proof.
  unfold Roll_Pitch.update.
  now destruct (read_loop _ _ _ _) as [[[pb rb] xi] p'].
Qed.

Lemma rpy_update_frame s :
  snd (Roll_Pitch_Yaw.update s) =
  let s' := fst (Roll_Pitch_Yaw.update s) in
  let xs := range (len (Roll_Pitch_Yaw.x_idx s')) in
  Roll_Pitch_Yaw.mkFrame
    (xs, snapshot (Roll_Pitch_Yaw.pitch_buf s'))
    (xs, snapshot (Roll_Pitch_Yaw.roll_buf s'))
    (xs, snapshot (Roll_Pitch_Yaw.yaw_buf s')) (x_limits xs)
    (if nonempty (Roll_Pitch_Yaw.pitch_buf s')
     then (current_pitch <- latest (Roll_Pitch_Yaw.pitch_buf s') ;;
           current_roll <- latest (Roll_Pitch_Yaw.roll_buf s') ;;
           current_yaw <- latest (Roll_Pitch_Yaw.yaw_buf s') ;;
           Some (current_pitch, current_roll, current_yaw))
     else None).
Proof.
  unfold Roll_Pitch_Yaw.update.
  destruct (read_lines _ _) as [lines p'].
  now destruct (for_each _ _ _) as [[[pb rb] yb] xi].
Qed.

Lemma last_item_cons_map {A B : Type} (f : A -> B) (l : list A) a :
  last_item l = Some a ->
  match map f l with [] => false | _ :: _ => true end = true.
Proof. destruct l; [discriminate|reflexivity]. Qed.

(** X7. What a tick hands to the body display is the last sample
    accepted since the start, from this tick or an earlier one; as long
    as no sample has been accepted the display is not updated.  This is
    the bar angle of the pitch script and the angles of the table in the
    other two. *)
Theorem latest_sample_is_displayed :
  (forall p n,
      Pitch.bar_angle (Pitch.tick_frame n (Pitch.init p)) =
      last_item (Pitch.samples (consumed Pitch.BATCH (S n) p))) /\
  (forall p n,
      Roll_Pitch.table_angles (Roll_Pitch.tick_frame n (Roll_Pitch.init p)) =
      last_item (Roll_Pitch.samples (consumed Roll_Pitch.BATCH (S n) p))) /\
  (forall p n,
      Roll_Pitch_Yaw.table_angles
        (Roll_Pitch_Yaw.tick_frame n (Roll_Pitch_Yaw.init p)) =
      last_item (Roll_Pitch_Yaw.samples
                   (consumed Roll_Pitch_Yaw.BATCH (S n) p))).
Proof.
  split; [|split]; intros p n.
  - unfold Pitch.tick_frame. rewrite pitch_update_frame.
    cbn [Pitch.bar_angle].
    change (fst (Pitch.update (Pitch.run n (Pitch.init p))))
      with (Pitch.run (S n) (Pitch.init p)).
    destruct (PitchFacts.pitch_run_init (S n) p) as [-> _].
    rewrite nonempty_extend_empty, latest_extend_empty.
    now destruct (Pitch.samples _).
  - unfold Roll_Pitch.tick_frame. rewrite rp_update_frame.
    cbn [Roll_Pitch.table_angles].
    change (fst (Roll_Pitch.update (Roll_Pitch.run n (Roll_Pitch.init p))))
      with (Roll_Pitch.run (S n) (Roll_Pitch.init p)).
    destruct (RollPitchFacts.rp_run_init (S n) p) as [-> [-> _]].
    rewrite nonempty_extend_empty, !latest_extend_empty, !last_item_map.
    destruct (last_item (Roll_Pitch.samples _)) as [[a b]|] eqn:E.
    + now rewrite (last_item_cons_map _ _ E).
    + now rewrite (last_item_nil_iff _ E).
  - unfold Roll_Pitch_Yaw.tick_frame. rewrite rpy_update_frame.
    cbn [Roll_Pitch_Yaw.table_angles].
    change (fst (Roll_Pitch_Yaw.update
                   (Roll_Pitch_Yaw.run n (Roll_Pitch_Yaw.init p))))
      with (Roll_Pitch_Yaw.run (S n) (Roll_Pitch_Yaw.init p)).
    destruct (RollPitchYawFacts.rpy_run_init (S n) p) as [-> [-> [-> _]]].
    rewrite nonempty_extend_empty, !latest_extend_empty, !last_item_map.
    destruct (last_item (Roll_Pitch_Yaw.samples _)) as [[[a b] c]|] eqn:E.
    + now rewrite (last_item_cons_map _ _ E).
    + now rewrite (last_item_nil_iff _ E).
Qed.

(** X8. The lines that a tick plots: against the positions
    [0, 1, ..., m - 1] the last [m] accepted values of each channel in
    the order of their arrival, [m] being the smaller of [WINDOW] and
    the number of samples accepted since the start; the x and y data of
    a line have the same length. *)
Theorem plotted_lines_are_last_window :
  (forall p n,
      let samples := Pitch.samples (consumed Pitch.BATCH (S n) p) in
      let m := Nat.min (List.length samples) WINDOW in
      let f := Pitch.tick_frame n (Pitch.init p) in
      Pitch.line_pitch f = (range m, last_window samples) /\
      List.length (fst (Pitch.line_pitch f)) =
      List.length (snd (Pitch.line_pitch f))) /\
  (forall p n,
      let samples := Roll_Pitch.samples (consumed Roll_Pitch.BATCH (S n) p) in
      let m := Nat.min (List.length samples) WINDOW in
      let f := Roll_Pitch.tick_frame n (Roll_Pitch.init p) in
      Roll_Pitch.line_pitch f = (range m, last_window (map fst samples)) /\
      Roll_Pitch.line_roll f = (range m, last_window (map snd samples)) /\
      List.length (fst (Roll_Pitch.line_pitch f)) =
      List.length (snd (Roll_Pitch.line_pitch f)) /\
      List.length (fst (Roll_Pitch.line_roll f)) =
      List.length (snd (Roll_Pitch.line_roll f))) /\
  (forall p n,
      let samples :=
        Roll_Pitch_Yaw.samples (consumed Roll_Pitch_Yaw.BATCH (S n) p) in
      let m := Nat.min (List.length samples) WINDOW in
      let f := Roll_Pitch_Yaw.tick_frame n (Roll_Pitch_Yaw.init p) in
      Roll_Pitch_Yaw.line_pitch f =
        (range m, last_window (map (fun s => fst (fst s)) samples)) /\
      Roll_Pitch_Yaw.line_roll f =
        (range m, last_window (map (fun s => snd (fst s)) samples)) /\
      Roll_Pitch_Yaw.line_yaw f = (range m, last_window (map snd samples)) /\
      List.length (fst (Roll_Pitch_Yaw.line_pitch f)) =
      List.length (snd (Roll_Pitch_Yaw.line_pitch f)) /\
      List.length (fst (Roll_Pitch_Yaw.line_roll f)) =
      List.length (snd (Roll_Pitch_Yaw.line_roll f)) /\
      List.length (fst (Roll_Pitch_Yaw.line_yaw f)) =
      List.length (snd (Roll_Pitch_Yaw.line_yaw f))).
Proof.
  assert (Hr : forall k, List.length (range k) = k)
    by (intro k; unfold range; now rewrite length_map, length_seq).
  split; [|split]; intros p n samples m f.
  - assert (E : Pitch.line_pitch f = (range m, last_window samples)).
    { unfold f, Pitch.tick_frame. rewrite pitch_update_frame.
      cbn [Pitch.line_pitch].
      change (fst (Pitch.update (Pitch.run n (Pitch.init p))))
        with (Pitch.run (S n) (Pitch.init p)).
      destruct (PitchFacts.pitch_run_init (S n) p) as [-> ->].
      rewrite DriverClaims.len_empty_push_indices, snapshot_extend_empty.
      now rewrite <- PitchFacts.pitch_length_samples. }
    split; [exact E|]. rewrite E. cbn [fst snd].
    now rewrite Hr, length_last_window.
  - assert (E : Roll_Pitch.line_pitch f = (range m, last_window (map fst samples)) /\
                Roll_Pitch.line_roll f = (range m, last_window (map snd samples))).
    { unfold f, Roll_Pitch.tick_frame. rewrite rp_update_frame.
      cbn [Roll_Pitch.line_pitch Roll_Pitch.line_roll].
      change (fst (Roll_Pitch.update (Roll_Pitch.run n (Roll_Pitch.init p))))
        with (Roll_Pitch.run (S n) (Roll_Pitch.init p)).
      destruct (RollPitchFacts.rp_run_init (S n) p) as [-> [-> ->]].
      rewrite DriverClaims.len_empty_push_indices, !snapshot_extend_empty.
      now rewrite <- RollPitchFacts.rp_length_samples. }
    destruct E as [E1 E2]. rewrite E1, E2. cbn [fst snd].
    rewrite Hr, !length_last_window, !length_map. repeat split.
  - assert (E : Roll_Pitch_Yaw.line_pitch f =
                  (range m, last_window (map (fun s => fst (fst s)) samples)) /\
                Roll_Pitch_Yaw.line_roll f =
                  (range m, last_window (map (fun s => snd (fst s)) samples)) /\
                Roll_Pitch_Yaw.line_yaw f =
                  (range m, last_window (map snd samples))).
    { unfold f, Roll_Pitch_Yaw.tick_frame. rewrite rpy_update_frame.
      cbn [Roll_Pitch_Yaw.line_pitch Roll_Pitch_Yaw.line_roll
           Roll_Pitch_Yaw.line_yaw].
      change (fst (Roll_Pitch_Yaw.update
                     (Roll_Pitch_Yaw.run n (Roll_Pitch_Yaw.init p))))
        with (Roll_Pitch_Yaw.run (S n) (Roll_Pitch_Yaw.init p)).
      destruct (RollPitchYawFacts.rpy_run_init (S n) p) as [-> [-> [-> ->]]].
      rewrite DriverClaims.len_empty_push_indices, !snapshot_extend_empty.
      now rewrite <- RollPitchYawFacts.rpy_length_samples. }
    destruct E as [E1 [E2 E3]]. rewrite E1, E2, E3. cbn [fst snd].
    rewrite Hr, !length_last_window, !length_map. repeat split.
Qed.

(** *** Only floats in the buffers *)

Lemma pitch_samples_are_floats lines :
  Forall (fun v : value => v <> None) (Pitch.samples lines).
Proof.
  unfold Pitch.samples. rewrite Forall_map, Forall_forall.
  intros raw Hin. apply filter_In in Hin. destruct Hin as [_ Hacc].
  unfold Pitch.accepted in Hacc.
  now destruct (Pitch.parse_line raw).
Qed.

Lemma rp_samples_are_floats lines :
  Forall (fun s : value * value => fst s <> None /\ snd s <> None)
         (Roll_Pitch.samples lines).
Proof.
  unfold Roll_Pitch.samples. rewrite Forall_map, Forall_forall.
  intros raw Hin. apply filter_In in Hin. destruct Hin as [_ Hacc].
  unfold Roll_Pitch.accepted in Hacc.
  destruct (roll_pitch_parse_line_whole raw) as [E|[pitch [roll E]]];
    rewrite E in *; [discriminate|]. now split.
Qed.

Lemma rpy_samples_are_floats lines :
  Forall (fun s : value * value * value =>
            fst (fst s) <> None /\ snd (fst s) <> None /\ snd s <> None)
         (Roll_Pitch_Yaw.samples lines).
Proof.
  unfold Roll_Pitch_Yaw.samples. rewrite Forall_map, Forall_forall.
  intros raw Hin. apply filter_In in Hin. destruct Hin as [_ Hacc].
  unfold Roll_Pitch_Yaw.accepted in Hacc.
  destruct (rpy_parse_line_whole raw) as [E|[pitch [roll [yaw E]]]];
    rewrite E in *; [discriminate|]. now repeat split.
Qed.

(** X9. The channel buffers never hold [None]: after any number of
    ticks every item of the pitch, roll and yaw buffers is a float. *)
Theorem buffers_hold_only_floats :
  (forall p n,
      Forall (fun v : value => v <> None)
             (snapshot (Pitch.pitch_buf (Pitch.run n (Pitch.init p))))) /\
  (forall p n,
      let s := Roll_Pitch.run n (Roll_Pitch.init p) in
      Forall (fun v : value => v <> None) (snapshot (Roll_Pitch.pitch_buf s)) /\
      Forall (fun v : value => v <> None) (snapshot (Roll_Pitch.roll_buf s))) /\
  (forall p n,
      let s := Roll_Pitch_Yaw.run n (Roll_Pitch_Yaw.init p) in
      Forall (fun v : value => v <> None)
             (snapshot (Roll_Pitch_Yaw.pitch_buf s)) /\
      Forall (fun v : value => v <> None)
             (snapshot (Roll_Pitch_Yaw.roll_buf s)) /\
      Forall (fun v : value => v <> None)
             (snapshot (Roll_Pitch_Yaw.yaw_buf s))).
Proof.
  split; [|split]; intros p n.
  - destruct (PitchFacts.pitch_run_init n p) as [-> _].
    rewrite snapshot_extend_empty.
    apply Forall_last_window, pitch_samples_are_floats.
  - intro s. unfold s.
    destruct (RollPitchFacts.rp_run_init n p) as [-> [-> _]].
    rewrite !snapshot_extend_empty.
    pose proof (rp_samples_are_floats (consumed Roll_Pitch.BATCH n p)) as H.
    split; apply Forall_last_window; rewrite Forall_map;
      eapply Forall_impl; try exact H; cbn; intros a Ha; tauto.
  - intro s. unfold s.
    destruct (RollPitchYawFacts.rpy_run_init n p) as [-> [-> [-> _]]].
    rewrite !snapshot_extend_empty.
    pose proof (rpy_samples_are_floats
                  (consumed Roll_Pitch_Yaw.BATCH n p)) as H.
    repeat split; apply Forall_last_window; rewrite Forall_map;
      eapply Forall_impl; try exact H; cbn; intros a Ha; tauto.
Qed.

(** *** How fast the buffers fill *)

Lemma count_accepted_le accepted lines :
  (count_accepted accepted lines <= List.length lines)%nat.
Proof. unfold count_accepted. apply filter_length_le. Qed.

Lemma count_accepted_consumed_succ accepted batch n p :
  exists c, (c <= batch)%nat /\
    count_accepted accepted (consumed batch (S n) p) =
    (count_accepted accepted (consumed batch n p) + c)%nat.
Proof.
  exists (count_accepted accepted
            (fst (read_lines batch (remaining batch n p)))).
  split.
  - etransitivity; [apply count_accepted_le|apply length_read_lines].
  - rewrite consumed_succ. unfold count_accepted.
    now rewrite filter_app, length_app.
Qed.

(** X10. From one tick to the next the index buffer never shrinks, and
    it grows by at most the batch limit of the script, 5, 20 and 20
    items. *)
Theorem buffers_grow_by_at_most_a_batch :
  (forall p n,
      let a := len (Pitch.x_idx (Pitch.run n (Pitch.init p))) in
      let b := len (Pitch.x_idx (Pitch.run (S n) (Pitch.init p))) in
      (a <= b <= a + 5)%nat) /\
  (forall p n,
      let a := len (Roll_Pitch.x_idx (Roll_Pitch.run n (Roll_Pitch.init p))) in
      let b := len (Roll_Pitch.x_idx
                      (Roll_Pitch.run (S n) (Roll_Pitch.init p))) in
      (a <= b <= a + 20)%nat) /\
  (forall p n,
      let a := len (Roll_Pitch_Yaw.x_idx
                      (Roll_Pitch_Yaw.run n (Roll_Pitch_Yaw.init p))) in
      let b := len (Roll_Pitch_Yaw.x_idx
                      (Roll_Pitch_Yaw.run (S n) (Roll_Pitch_Yaw.init p))) in
      (a <= b <= a + 20)%nat).
Proof.
  split; [|split]; intros p n a b; unfold a, b.
  - destruct (PitchFacts.pitch_run_init n p) as [_ ->].
    destruct (PitchFacts.pitch_run_init (S n) p) as [_ ->].
    rewrite !DriverClaims.len_empty_push_indices.
    destruct (count_accepted_consumed_succ Pitch.accepted Pitch.BATCH n p)
      as [c [Hc ->]]. unfold Pitch.BATCH in Hc. lia.
  - destruct (RollPitchFacts.rp_run_init n p) as [_ [_ ->]].
    destruct (RollPitchFacts.rp_run_init (S n) p) as [_ [_ ->]].
    rewrite !DriverClaims.len_empty_push_indices.
    destruct (count_accepted_consumed_succ Roll_Pitch.accepted
                Roll_Pitch.BATCH n p) as [c [Hc ->]].
    unfold Roll_Pitch.BATCH in Hc. lia.
  - destruct (RollPitchYawFacts.rpy_run_init n p) as [_ [_ [_ ->]]].
    destruct (RollPitchYawFacts.rpy_run_init (S n) p) as [_ [_ [_ ->]]].
    rewrite !DriverClaims.len_empty_push_indices.
    destruct (count_accepted_consumed_succ Roll_Pitch_Yaw.accepted
                Roll_Pitch_Yaw.BATCH n p) as [c [Hc ->]].
    unfold Roll_Pitch_Yaw.BATCH in Hc. lia.
Qed.

End BufferExtras.

(** ** The pose: axes, the view box, the faces *)

Module PoseExtras.
Import Py Np Table PoseSpec PoseFacts.
Open Scope R_scope.

Lemma Rz3_0 : Rz3 (to_radians 0) = I3.
Proof. rewrite to_radians_0. unfold Rz3, I3. rewrite cos_0, sin_0. reals. Qed.

Lemma Rx3_0 : Rx3 (to_radians 0) = I3.
Proof. rewrite to_radians_0. unfold Rx3, I3. rewrite cos_0, sin_0. reals. Qed.

Lemma Ry3_0 : Ry3 (to_radians 0) = I3.
Proof. rewrite to_radians_0. unfold Ry3, I3. rewrite cos_0, sin_0. reals. Qed.

Lemma mul3_I3_r A : mul3 A I3 = A.
Proof. mat3. Qed.

(** X12. For finite pitch and roll and the yaw at 0, the value that the
    three-axis parser fills in for a line of two fields, the three-axis
    script draws what the pitch and roll script draws: the same
    vertices and the same faces. *)
Theorem zero_yaw_is_the_two_axis_pose :
  forall (pitch_deg roll_deg : PyFloat.float) (pitch roll : R),
    PyFloat.to_real pitch_deg = Some pitch ->
    PyFloat.to_real roll_deg = Some roll ->
    Roll_Pitch_Yaw.create_table_vertices pitch roll 0 =
    Roll_Pitch.create_table_vertices pitch roll /\
    Roll_Pitch_Yaw.update_3d_table pitch roll 0 =
    Roll_Pitch.update_3d_table pitch roll.
Proof.
  intros pitch_deg roll_deg pitch roll _ _.
  assert (E : Roll_Pitch_Yaw.create_table_vertices pitch roll 0 =
              Roll_Pitch.create_table_vertices pitch roll).
  { rewrite rpy_create_table_vertices, rp_create_table_vertices.
    unfold composed. now rewrite Rz3_0. }
  split; [exact E|].
  unfold Roll_Pitch_Yaw.update_3d_table, Roll_Pitch.update_3d_table.
  now rewrite E.
Qed.

Lemma zero_yaw_is_the_two_axis_pose_witness :
  exists pitch roll,
    PyFloat.float_of_str (PyStr.of_string "20.0") = Some (S754_finite false 5629499534213120 (-48)) /\
    PyFloat.float_of_str (PyStr.of_string "7.0") = Some (S754_finite false 7881299347898368 (-50)) /\
    PyFloat.to_real (S754_finite false 5629499534213120 (-48)) = Some pitch /\
    PyFloat.to_real (S754_finite false 7881299347898368 (-50)) = Some roll /\
    Roll_Pitch_Yaw.create_table_vertices pitch roll 0 =
    Roll_Pitch.create_table_vertices pitch roll /\
    Roll_Pitch_Yaw.update_3d_table pitch roll 0 =
    Roll_Pitch.update_3d_table pitch roll.
Proof.
  eexists. eexists.
  split; [vm_compute; reflexivity|]. split; [vm_compute; reflexivity|].
  split; [reflexivity|]. split; [reflexivity|].
  exact (@zero_yaw_is_the_two_axis_pose
           (S754_finite false 5629499534213120 (-48))
           (S754_finite false 7881299347898368 (-50)) _ _ eq_refl eq_refl).
Defined.





(** *** Rotation about one axis *)

Lemma composed_pitch_only pitch : composed pitch 0 0 = Ry3 (to_radians pitch).
Proof.
  unfold composed, composed_with.
  now rewrite Rz3_0, Rx3_0, mul3_I3_l, mul3_I3_l.
Qed.

Lemma composed_roll_only roll : composed 0 roll 0 = Rx3 (to_radians roll).
Proof.
  unfold composed, composed_with.
  now rewrite Rz3_0, Ry3_0, mul3_I3_l, mul3_I3_r.
Qed.

Lemma composed_yaw_only yaw : composed 0 0 yaw = Rz3 (to_radians yaw).
Proof.
  unfold composed, composed_with.
  now rewrite Rx3_0, Ry3_0, !mul3_I3_r.
Qed.

Lemma map_coordinate (f : vec -> vec) (g : vec -> R) (h : vec -> R) (l : list vec) :
  Forall (fun r => List.length r = 3%nat) l ->
  (forall x y z, g (f [x; y; z]) = h [x; y; z]) ->
  map g (map f l) = map h l.
Proof.
  intros Hl H. rewrite map_map. rewrite Forall_forall in Hl.
  apply map_ext_in. intros r Hr. specialize (Hl r Hr).
  destruct r as [|x [|y [|z [|w r]]]]; try discriminate. apply H.
Qed.

(** X13. Each finite angle alone turns the table about the axis that
    the plot names for it: pitch alone leaves the Y coordinate of every
    vertex as it is in the rest mesh, roll alone the X coordinate, and
    yaw alone the height, which is the rest height plus the lift. *)
Theorem single_angle_keeps_its_axis :
  forall (angle_deg : PyFloat.float) (angle : R),
    PyFloat.to_real angle_deg = Some angle ->
    (exists pose,
        Roll_Pitch_Yaw.create_table_vertices angle 0 0 = Some pose /\
        map (fun v => nth 1 v 0) (vertices pose) =
        map (fun v => nth 1 v 0) (vertices (tabletop, legs))) /\
    (exists pose,
        Roll_Pitch_Yaw.create_table_vertices 0 angle 0 = Some pose /\
        map (fun v => nth 0 v 0) (vertices pose) =
        map (fun v => nth 0 v 0) (vertices (tabletop, legs))) /\
    (exists pose,
        Roll_Pitch_Yaw.create_table_vertices 0 0 angle = Some pose /\
        map (fun v => nth 2 v 0) (vertices pose) =
        map (fun v => nth 2 v 0 + lift) (vertices (tabletop, legs))).
Proof.
  intros angle_deg a _.
  split; [|split]; eexists;
    (split; [apply rpy_create_table_vertices|]);
    rewrite vertices_pose;
    (apply map_coordinate; [apply base_vertices_shape|]);
    intros x y z.
  - rewrite composed_pitch_only. unfold_spec. ring.
  - rewrite composed_roll_only. unfold_spec. ring.
  - rewrite composed_yaw_only. unfold_spec. ring.
Qed.

Lemma single_angle_keeps_its_axis_witness :
  exists angle,
    PyFloat.float_of_str (PyStr.of_string "30.0") = Some (S754_finite false 8444249301319680 (-48)) /\
    PyFloat.to_real (S754_finite false 8444249301319680 (-48)) = Some angle /\
    exists pose,
      Roll_Pitch_Yaw.create_table_vertices angle 0 0 = Some pose /\
      map (fun v => nth 1 v 0) (vertices pose) =
      map (fun v => nth 1 v 0) (vertices (tabletop, legs)).
Proof.
  eexists. split; [vm_compute; reflexivity|]. split; [reflexivity|].
  exact (proj1 (@single_angle_keeps_its_axis
                  (S754_finite false 8444249301319680 (-48)) _ eq_refl)).
Defined.





(** *** The view box *)

Lemma pose_row_in_view M x y z :
  orthogonal M ->
  within 3.68 [x; y; z] ->
  in_view (pose_row M [x; y; z]).
Proof.
  intros H Hw.
  destruct M as [[a b c] [d e f] [g h i]].
  unfold orthogonal in H. revert H. unfold_spec. intro H.
  injection H as H11 H12 H13 H21 H22 H23 H31 H32 H33.
  unfold within in Hw. unfold in_view, view_xlim, view_ylim, view_zlim, lift.
  cbn [fst snd].
  set (X := x * a + y * b + z * c) in *.
  set (Y := x * d + y * e + z * f) in *.
  set (Z := x * g + y * h + z * i) in *.
  assert (N : X * X + Y * Y + Z * Z = x * x + y * y + z * z).
  { unfold X, Y, Z.
    transitivity
      (x * x * (a * a + d * d + g * g) +
       y * y * (b * b + e * e + h * h) +
       z * z * (c * c + f * f + i * i) +
       2 * x * y * (a * b + d * e + g * h) +
       2 * x * z * (a * c + d * f + g * i) +
       2 * y * z * (b * c + e * f + h * i)); [ring|].
    rewrite H11, H22, H33, H12, H13, H23. ring. }
  clearbody X Y Z.
  repeat split; nra.
Qed.

Lemma base_vertices_within :
  Forall (within 3.68) (vertices (tabletop, legs)).
Proof.
  unfold vertices. cbn -[tw td th leg_w leg_h leg_inset].
  unfold within, tw, td, th, leg_w, leg_h, leg_inset.
  repeat (constructor; [lra|]). constructor.
Qed.

Lemma Forall_in_view_pose M :
  orthogonal M ->
  Forall in_view (map (pose_row M) (vertices (tabletop, legs))).
Proof.
  intro H. rewrite Forall_map.
  eapply Forall_impl; [|apply base_vertices_within].
  intros r Hr. destruct r as [|x [|y [|z [|w r]]]]; try contradiction.
  now apply pose_row_in_view.
Qed.

(** X14. Whatever the finite angles, every vertex of the table stays
    inside the box that the three-dimensional axes show, from -3 to 3 in
    X and Y and from -1 to 3.5 in Z, in both table scripts. *)
Theorem table_stays_in_view :
  forall (pitch_deg roll_deg yaw_deg : PyFloat.float) (pitch roll yaw : R),
    PyFloat.to_real pitch_deg = Some pitch ->
    PyFloat.to_real roll_deg = Some roll ->
    PyFloat.to_real yaw_deg = Some yaw ->
    (exists pose,
        Roll_Pitch_Yaw.create_table_vertices pitch roll yaw = Some pose /\
        Forall in_view (vertices pose)) /\
    (exists pose,
        Roll_Pitch.create_table_vertices pitch roll = Some pose /\
        Forall in_view (vertices pose)).
Proof.
  intros pitch_deg roll_deg yaw_deg pitch roll yaw _ _ _.
  split.
  - eexists.
    split; [apply rpy_create_table_vertices|].
    rewrite vertices_pose. apply Forall_in_view_pose.
    apply orthogonal_composed_with, orthogonal_Rz3.
  - eexists.
    split; [apply rp_create_table_vertices|].
    rewrite vertices_pose. apply Forall_in_view_pose.
    apply orthogonal_composed_with, orthogonal_I3.
Qed.

Lemma table_stays_in_view_witness :
  exists pitch roll yaw,
    PyFloat.to_real (S754_finite false 8444249301319680 (-48)) = Some pitch /\
    PyFloat.to_real (S754_finite false 5629499534213120 (-48)) = Some roll /\
    PyFloat.to_real (S754_finite false 7881299347898368 (-50)) = Some yaw /\
    (exists pose,
        Roll_Pitch_Yaw.create_table_vertices pitch roll yaw = Some pose /\
        Forall in_view (vertices pose)) /\
    (exists pose,
        Roll_Pitch.create_table_vertices pitch roll = Some pose /\
        Forall in_view (vertices pose)).
Proof.
  eexists. eexists. eexists.
  split; [reflexivity|]. split; [reflexivity|]. split; [reflexivity|].
  exact (@table_stays_in_view
           (S754_finite false 8444249301319680 (-48))
           (S754_finite false 5629499534213120 (-48))
           (S754_finite false 7881299347898368 (-50)) _ _ _
           eq_refl eq_refl eq_refl).
Defined.





(** *** The faces *)

Lemma box_faces_short (m : matrix) :
  (List.length m < 8)%nat -> box_faces m = None.
Proof.
  intro H.
  destruct m as [|v0 [|v1 [|v2 [|v3 [|v4 [|v5 [|v6 [|v7 m]]]]]]]];
    try reflexivity.
  cbn [List.length] in H. lia.
Qed.

Lemma box_faces_rows (m : matrix) :
  (8 <= List.length m)%nat ->
  exists faces,
    box_faces m = Some faces /\ List.length faces = 6%nat /\
    Forall (fun face => List.length face = 4%nat /\ incl face (firstn 8 m)) faces.
Proof.
  intro H.
  destruct m as [|v0 [|v1 [|v2 [|v3 [|v4 [|v5 [|v6 [|v7 m]]]]]]]];
    cbn [List.length] in H; try lia.
  eexists. split; [reflexivity|]. split; [reflexivity|].
  cbn [firstn].
  repeat (constructor;
          [split; [reflexivity|];
           intros v Hv; cbn in Hv |- *; tauto|]).
  constructor.
Qed.

Lemma for_all_box_faces (ls : list matrix) :
  Forall (fun l => (8 <= List.length l)%nat) ls ->
  exists fl,
    for_all box_faces ls = Some fl /\
    List.length (concat fl) = (6 * List.length ls)%nat /\
    Forall (fun face => List.length face = 4%nat) (concat fl).
Proof.
  induction 1 as [|l ls Hl _ [fl [E [Hn Hf]]]].
  - exists []. repeat split. constructor.
  - destruct (box_faces_rows l Hl) as [faces [Eb [Hb Hq]]].
    exists (faces :: fl). cbn [for_all]. rewrite Eb, E. cbn [bind].
    split; [reflexivity|]. cbn [concat]. split.
    + rewrite length_app, Hb, Hn. cbn [List.length]. lia.
    + apply Forall_app. split; [|exact Hf].
      eapply Forall_impl; [|exact Hq]. cbn. tauto.
Qed.

Lemma for_all_box_faces_short (ls : list matrix) :
  Exists (fun l => (List.length l < 8)%nat) ls ->
  for_all box_faces ls = None.
Proof.
  induction 1 as [l ls Hl|l ls _ IH].
  - cbn [for_all]. now rewrite (box_faces_short _ Hl).
  - cbn [for_all]. rewrite IH. now destruct (box_faces l).
Qed.

(** X15. [create_table_faces] reads the first eight rows of the tabletop
    array and of every leg array.  With at least eight rows in each it
    returns six faces of four vertices for the tabletop and six for each
    leg; with fewer than eight rows in the tabletop or in some leg it
    fails, the indexing being out of range. *)
Theorem create_table_faces_needs_eight_rows :
  forall (tabletop_verts : matrix) (legs_verts : list matrix),
    ((8 <= List.length tabletop_verts)%nat ->
     Forall (fun l => (8 <= List.length l)%nat) legs_verts ->
     exists faces,
       create_table_faces tabletop_verts legs_verts = Some faces /\
       List.length faces = (6 + 6 * List.length legs_verts)%nat /\
       Forall (fun face => List.length face = 4%nat) faces) /\
    ((List.length tabletop_verts < 8)%nat \/
     Exists (fun l => (List.length l < 8)%nat) legs_verts ->
     create_table_faces tabletop_verts legs_verts = None).
Proof.
  intros tt ls. split.
  - intros Ht Hl.
    destruct (box_faces_rows tt Ht) as [ft [Et [Hn Hq]]].
    destruct (for_all_box_faces Hl) as [fl [El [Hm Hf]]].
    exists (ft ++ concat fl). unfold create_table_faces.
    rewrite Et, El. cbn [bind]. split; [reflexivity|]. split.
    + rewrite length_app, Hn, Hm. reflexivity.
    + apply Forall_app. split; [|exact Hf].
      eapply Forall_impl; [|exact Hq]. cbn. tauto.
  - intros [Ht|Hl]; unfold create_table_faces.
    + now rewrite (box_faces_short _ Ht).
    + rewrite (for_all_box_faces_short Hl). now destruct (box_faces tt).
Qed.

Lemma create_table_faces_needs_eight_rows_witness :
  (exists faces,
      create_table_faces tabletop legs = Some faces /\
      List.length faces = (6 + 6 * List.length legs)%nat /\
      Forall (fun face => List.length face = 4%nat) faces) /\
  create_table_faces (firstn 7 tabletop) legs = None.
Proof.
  split.
  - apply (proj1 (create_table_faces_needs_eight_rows tabletop legs)).
    + cbn. lia.
    + cbn. repeat constructor.
  - apply (proj2 (create_table_faces_needs_eight_rows (firstn 7 tabletop) legs)).
    left. cbn. lia.
Defined.

(** X16. [update_3d_table] draws the thirty faces of the rest mesh with
    the vertices of the pose in the place of the rest vertices: face by
    face the same vertices in the same order, each the one that
    [create_table_vertices] returns for it. *)
Theorem update_3d_table_moves_rest_faces :
  exists base_faces,
    create_table_faces tabletop legs = Some base_faces /\
    List.length base_faces = 30%nat /\
    Forall (fun face => List.length face = 4%nat) base_faces /\
    (forall pitch roll yaw, exists f,
        Roll_Pitch_Yaw.create_table_vertices pitch roll yaw =
          Some (map f tabletop, map (map f) legs) /\
        Roll_Pitch_Yaw.update_3d_table pitch roll yaw =
          Some (map (map f) base_faces)) /\
    (forall pitch roll, exists f,
        Roll_Pitch.create_table_vertices pitch roll =
          Some (map f tabletop, map (map f) legs) /\
        Roll_Pitch.update_3d_table pitch roll =
          Some (map (map f) base_faces)).
Proof.
  destruct (create_table_faces_pose (fun v => v)) as [base_faces [E [Hn [H4 _]]]].
  exists base_faces. split; [exact E|]. split; [exact Hn|]. split; [exact H4|].
  split.
  - intros pitch roll yaw. exists (pose_row (composed pitch roll yaw)).
    split; [apply rpy_create_table_vertices|].
    unfold Roll_Pitch_Yaw.update_3d_table.
    rewrite rpy_create_table_vertices. cbn [bind].
    destruct (create_table_faces_pose (pose_row (composed pitch roll yaw)))
      as [bf [E' [_ [_ Hf]]]].
    rewrite E in E'. injection E' as <-. exact Hf.
  - intros pitch roll. exists (pose_row (composed_with I3 pitch roll)).
    split; [apply rp_create_table_vertices|].
    unfold Roll_Pitch.update_3d_table.
    rewrite rp_create_table_vertices. cbn [bind].
    destruct (create_table_faces_pose (pose_row (composed_with I3 pitch roll)))
      as [bf [E' [_ [_ Hf]]]].
    rewrite E in E'. injection E' as <-. exact Hf.
Qed.

End PoseExtras.

(** ** Rejected lines and the x limits *)

Module DriverExtras.
Import PyStr PyFloat Deque Serial Py DequeFacts DriverFacts.

Lemma filter_filter {A : Type} (f : A -> bool) (l : list A) :
  filter f (filter f l) = filter f l.
Proof.
  induction l as [|a l IH]; [reflexivity|].
  cbn [filter]. destruct (f a) eqn:E; [|exact IH].
  cbn [filter]. now rewrite E, IH.
Qed.

(** X17. A line that does not parse leaves no trace: handling a batch
    of lines gives the buffers that handling only its accepted lines
    gives, whatever the buffers before, in each script. *)
Theorem rejected_lines_leave_no_trace :
  (forall lines b,
      for_each Pitch.loop_body lines b =
      for_each Pitch.loop_body (filter Pitch.accepted lines) b) /\
  (forall lines b,
      for_each Roll_Pitch.loop_body lines b =
      for_each Roll_Pitch.loop_body (filter Roll_Pitch.accepted lines) b) /\
  (forall lines b,
      for_each Roll_Pitch_Yaw.loop_body lines b =
      for_each Roll_Pitch_Yaw.loop_body
               (filter Roll_Pitch_Yaw.accepted lines) b).
Proof.
  split; [|split]; intros lines b.
  - destruct b as [pb xi].
    rewrite !PitchFacts.pitch_for_each_loop_body.
    unfold Pitch.samples, count_accepted. now rewrite !filter_filter.
  - destruct b as [[pb rb] xi].
    rewrite !RollPitchFacts.rp_for_each_loop_body.
    unfold Roll_Pitch.samples, count_accepted. now rewrite !filter_filter.
  - destruct b as [[[pb rb] yb] xi].
    rewrite !RollPitchYawFacts.rpy_for_each_loop_body.
    unfold Roll_Pitch_Yaw.samples, count_accepted. now rewrite !filter_filter.
Qed.

(** X18. The x limits as a function of the number of points: for any
    number of points the limits are exactly [WINDOW] apart, the lower
    one is not negative, and the position after the newest point lies
    between them; up to [WINDOW] points the limits are [0, WINDOW], and
    beyond that they would end at the number of points. *)
Theorem x_limits_span_one_window :
  forall xs : list Z,
    let n := Z.of_nat (List.length xs) in
    let lo := fst (x_limits xs) in
    let hi := snd (x_limits xs) in
    (hi - lo = Z.of_nat WINDOW)%Z /\
    (0 <= lo <= n)%Z /\ (n <= hi)%Z /\
    ((n <= Z.of_nat WINDOW)%Z -> lo = 0%Z /\ hi = Z.of_nat WINDOW) /\
    ((Z.of_nat WINDOW <= n)%Z -> hi = n).
Proof.
  intros xs n lo hi. unfold lo, hi, x_limits. cbn [fst snd]. fold n.
  unfold WINDOW. lia.
Qed.

Lemma x_limits_span_one_window_witness :
  fst (x_limits (range 50)) = 0%Z /\ snd (x_limits (range 50)) = 200%Z.
Proof.
  apply (proj1 (proj2 (proj2 (proj2 (x_limits_span_one_window (range 50)))))).
  vm_compute. discriminate.
Defined.

End DriverExtras.


(** ** The numbers of the overlay: formatting and parsing back *)

Module FormatExtras.
Import PyStr PyFloat PyFormat Py ParserExtras.

Lemma digit_cases (d : N) :
  (d < 10)%N ->
  d = 0%N \/ d = 1%N \/ d = 2%N \/ d = 3%N \/ d = 4%N \/
  d = 5%N \/ d = 6%N \/ d = 7%N \/ d = 8%N \/ d = 9%N.
Proof. lia. Qed.

Lemma digit_char_spec (d : N) :
  (d < 10)%N ->
  is_digit (digit_char d) = true /\ digit_val (digit_char d) = d.
Proof.
  intro H. apply digit_cases in H.
  decompose [or] H; subst d; split; reflexivity.
Qed.

Lemma digits_value_snoc v ds c :
  digits_value v (ds ++ [c]) = (10 * digits_value v ds + digit_val c)%N.
Proof. unfold digits_value. now rewrite fold_left_app. Qed.

Lemma digits_fuel_spec : forall fuel n acc,
  (n < 2 ^ N.of_nat (S fuel))%N ->
  exists ds,
    digits_fuel (S fuel) n acc = ds ++ acc /\
    ds <> [] /\
    Forall (fun c => is_digit c = true) ds /\
    digits_value 0 ds = n.
Proof.
  induction fuel as [|fuel IH]; intros n acc Hn;
    cbn [digits_fuel];
    assert (Hr : (n mod 10 < 10)%N) by (apply N.mod_lt; lia);
    destruct (digit_char_spec Hr) as [Hd Hv];
    assert (Hdiv : n = (10 * (n / 10) + n mod 10)%N)
      by (apply N.div_mod; lia);
    destruct (N.eqb_spec (n / 10) 0) as [E|E].
  - exists [digit_char (n mod 10)]. repeat split.
    + discriminate.
    + now constructor.
    + unfold digits_value. cbn [fold_left]. rewrite Hv. lia.
  - exfalso. cbn in Hn. lia.
  - exists [digit_char (n mod 10)]. repeat split.
    + discriminate.
    + now constructor.
    + unfold digits_value. cbn [fold_left]. rewrite Hv. lia.
  - assert (Hlt : (n / 10 < 2 ^ N.of_nat (S fuel))%N).
    { rewrite (Nat2N.inj_succ (S fuel)), N.pow_succ_r' in Hn.
      apply N.Div0.div_lt_upper_bound. lia. }
    destruct (IH (n / 10)%N (digit_char (n mod 10) :: acc) Hlt)
      as [ds [E1 [Hne [Hall Hval]]]].
    exists (ds ++ [digit_char (n mod 10)]). repeat split.
    + change (digits_fuel (S fuel) (n / 10) (digit_char (n mod 10) :: acc) =
              (ds ++ [digit_char (n mod 10)]) ++ acc).
      rewrite E1, <- app_assoc. reflexivity.
    + now destruct ds.
    + apply Forall_app. split; [exact Hall|now constructor].
    + rewrite digits_value_snoc, Hval, Hv. lia.
Qed.

Lemma digits_spec n :
  exists ds,
    digits n = ds /\ ds <> [] /\
    Forall (fun c => is_digit c = true) ds /\
    digits_value 0 ds = n.
Proof.
  unfold digits.
  destruct (@digits_fuel_spec (N.to_nat (N.log2 n)) n []) as [ds [E H]].
  - rewrite Nat2N.inj_succ, N2Nat.id.
    destruct (N.eq_dec n 0) as [->|Hn]; [reflexivity|].
    apply N.log2_spec. lia.
  - exists ds. rewrite E, app_nil_r. now split.
Qed.

Lemma span_digits_app ds rest :
  Forall (fun c => is_digit c = true) ds ->
  match rest with [] => True | c :: _ => is_digit c = false end ->
  span_digits (ds ++ rest) = (ds, rest).
Proof.
  intros Hd Hr. induction Hd as [|c ds Hc _ IH].
  - destruct rest as [|c rest]; [reflexivity|].
    cbn [app span_digits]. now rewrite Hr.
  - cbn [app span_digits]. now rewrite Hc, IH.
Qed.

Lemma strip_by_ends ws c s d :
  ws c = false -> ws d = false ->
  strip_by ws (c :: s ++ [d]) = c :: s ++ [d].
Proof.
  intros Hc Hd. unfold strip_by, rstrip_by. cbn [lstrip_by]. rewrite Hc.
  change (c :: s ++ [d]) with ((c :: s) ++ [d]).
  rewrite rev_app_distr. cbn [rev app lstrip_by]. rewrite Hd.
  change (d :: rev s ++ [c]) with ([d] ++ rev (c :: s)).
  rewrite rev_app_distr, rev_involutive. reflexivity.
Qed.

Lemma strip_underscores_none s :
  Forall (fun c => Ascii.eqb c underscore = false) s ->
  forall prev,
    match prev with Some p => Ascii.eqb p underscore = false | None => True end ->
    strip_underscores prev s = Some s.
Proof.
  induction 1 as [|c s Hc _ IH]; intros prev Hp.
  - cbn. destruct prev as [p|]; [now rewrite Hp|reflexivity].
  - cbn [strip_underscores]. rewrite Hc.
    replace (match prev with Some p => Ascii.eqb p underscore | None => false end)
      with false by (destruct prev; [now rewrite Hp|reflexivity]).
    cbn [andb]. now rewrite (IH (Some c) Hc).
Qed.

Lemma digit_not_underscore c :
  is_digit c = true -> Ascii.eqb c underscore = false.
Proof.
  intro H. destruct (Ascii.eqb_spec c underscore) as [->|]; [discriminate|reflexivity].
Qed.

Lemma digit_not_space c : is_digit c = true -> float_space c = false.
Proof.
  unfold is_digit, float_space, in_range.
  destruct (N.leb_spec 48 (code c)), (N.leb_spec (code c) 57);
    try discriminate. intros _.
  destruct (N.leb_spec 9 (code c)), (N.leb_spec (code c) 13),
    (N.eqb_spec (code c) 32), (N.eqb_spec (code c) 133),
    (N.eqb_spec (code c) 160); try reflexivity; lia.
Qed.

Lemma digit_lower c : is_digit c = true -> lower c = c.
Proof.
  unfold is_digit, lower, in_range.
  destruct (N.leb_spec 48 (code c)), (N.leb_spec (code c) 57);
    try discriminate. intros _.
  destruct (N.leb_spec 65 (code c)), (N.leb_spec (code c) 90);
    try reflexivity; lia.
Qed.

Lemma digit_first_not_word c l (w : str) :
  is_digit c = true ->
  match w with [] => True | k :: _ => is_digit k = false end ->
  str_eqb (map lower (c :: l)) w = false.
Proof.
  intros Hc Hw. unfold str_eqb.
  destruct (list_eq_dec ascii_dec (map lower (c :: l)) w) as [E|]; [|reflexivity].
  cbn [map] in E. rewrite (digit_lower _ Hc) in E. subst w.
  now rewrite Hc in Hw.
Qed.

(** The grammar takes digits, a point and one digit as the number of
    tenths that they spell. *)
Lemma parse_unsigned_tenths neg ds d :
  ds <> [] ->
  Forall (fun c => is_digit c = true) ds ->
  is_digit d = true ->
  parse_unsigned neg (ds ++ "."%char :: [d]) =
  Some (LDec neg (10 * digits_value 0 ds + digit_val d) (-1)).
Proof.
  intros Hne Hds Hd. unfold parse_unsigned.
  destruct ds as [|c ds]; [contradiction|].
  inversion Hds as [|? ? Hc Hds']; subst.
  cbn [app].
  rewrite !(@digit_first_not_word c _ _ Hc) by reflexivity. cbn [orb].
  change (c :: ds ++ "."%char :: [d]) with ((c :: ds) ++ "."%char :: [d]).
  rewrite (@span_digits_app _ _ Hds) by reflexivity.
  cbn [Ascii.eqb Bool.eqb]. cbn [span_digits]. rewrite Hd.
  cbn [parse_exponent app List.length].
  change (c :: ds ++ [d]) with ((c :: ds) ++ [d]).
  rewrite digits_value_snoc. reflexivity.
Qed.

Lemma split_app_sep sep a rest :
  Forall (fun k => Ascii.eqb k sep = false) a ->
  split sep (a ++ sep :: rest) = a :: split sep rest.
Proof.
  induction 1 as [|c a Hc _ IH].
  - cbn [app split]. now rewrite Ascii.eqb_refl.
  - cbn [app split]. rewrite Hc, IH. reflexivity.
Qed.

Lemma split_no_sep sep a :
  Forall (fun k => Ascii.eqb k sep = false) a -> split sep a = [a].
Proof.
  induction 1 as [|c a Hc _ IH]; [reflexivity|].
  cbn [split]. rewrite Hc, IH. reflexivity.
Qed.

Lemma digit_not_sep sep c :
  not_in_numbers sep = true -> is_digit c = true -> Ascii.eqb c sep = false.
Proof.
  unfold not_in_numbers. intros Hs Hc.
  apply andb_true_iff in Hs. destruct Hs as [Hs _].
  destruct (Ascii.eqb_spec c sep) as [->|]; [|reflexivity].
  rewrite Hc in Hs. discriminate.
Qed.

Lemma word_not_sep sep k :
  not_in_numbers sep = true ->
  In k (of_string "+-.infa") -> Ascii.eqb k sep = false.
Proof.
  unfold not_in_numbers. intros Hs Hk.
  apply andb_true_iff in Hs. destruct Hs as [_ Hs].
  rewrite forallb_forall in Hs. specialize (Hs k Hk).
  now destruct (Ascii.eqb k sep).
Qed.

(** No formatted number contains a comma, a line end, an underscore, a
    blank or a degree sign. *)
Lemma format_has_no_sep sep x :
  not_in_numbers sep = true ->
  Forall (fun k => Ascii.eqb k sep = false) (format_plus_1f x).
Proof.
  intro Hs.
  assert (W : forall w, incl w (of_string "+-.infa") ->
                   Forall (fun k => Ascii.eqb k sep = false) w).
  { intros w Hw. rewrite Forall_forall. intros k Hk.
    apply (@word_not_sep sep _ Hs), Hw, Hk. }
  assert (Hsign : forall s, Ascii.eqb (sign_char s) sep = false).
  { intros [|]; apply (@word_not_sep sep _ Hs); cbn; tauto. }
  destruct x as [s|s| |s m e]; cbn [format_plus_1f].
  - constructor; [apply Hsign|].
    constructor; [apply (@digit_not_sep sep _ Hs); reflexivity|].
    constructor; [apply (@word_not_sep sep _ Hs); cbn; tauto|].
    constructor; [apply (@digit_not_sep sep _ Hs); reflexivity|constructor].
  - constructor; [apply Hsign|]. apply W. intros k Hk. cbn in *. tauto.
  - apply W. intros k Hk. cbn in *. tauto.
  - constructor; [apply Hsign|].
    destruct (digits_spec (tenths m e / 10)) as [ds [-> [_ [Hds _]]]].
    apply Forall_app. split.
    + eapply Forall_impl; [|exact Hds]. intros k. apply (@digit_not_sep sep _ Hs).
    + constructor; [apply (@word_not_sep sep _ Hs); cbn; tauto|].
      constructor; [|constructor].
      apply (@digit_not_sep sep _ Hs), digit_char_spec, N.mod_lt. lia.
Qed.

(** A formatted number starts with its sign and ends with a digit or a
    letter: no white space at either end. *)
Lemma format_ends x :
  exists c mid d,
    format_plus_1f x = c :: mid ++ [d] /\
    isspace c = false /\ isspace d = false /\
    float_space c = false /\ float_space d = false.
Proof.
  destruct x as [s|s| |s m e]; cbn [format_plus_1f].
  - exists (sign_char s), (of_string "0."), "0"%char.
    destruct s; repeat split.
  - exists (sign_char s), (of_string "in"), "f"%char.
    destruct s; repeat split.
  - exists "+"%char, (of_string "na"), "n"%char. repeat split.
  - exists (sign_char s), (digits (tenths m e / 10) ++ ["."%char]),
           (digit_char (tenths m e mod 10)).
    assert (Hd : is_digit (digit_char (tenths m e mod 10)) = true)
      by (apply digit_char_spec, N.mod_lt; lia).
    split; [now rewrite <- app_assoc|].
    split; [now destruct s|].
    split.
    + pose proof (digit_not_space _ Hd) as Hf.
      unfold isspace, float_space, is_digit, in_range in *.
      destruct (N.leb_spec 48 (code (digit_char (tenths m e mod 10)))),
        (N.leb_spec (code (digit_char (tenths m e mod 10))) 57);
        try discriminate.
      destruct (N.leb_spec 9 (code (digit_char (tenths m e mod 10)))),
        (N.leb_spec (code (digit_char (tenths m e mod 10))) 13),
        (N.leb_spec 28 (code (digit_char (tenths m e mod 10)))),
        (N.leb_spec (code (digit_char (tenths m e mod 10))) 32),
        (N.eqb_spec (code (digit_char (tenths m e mod 10))) 133),
        (N.eqb_spec (code (digit_char (tenths m e mod 10))) 160);
        try reflexivity; lia.
    + split; [now destruct s|]. now apply digit_not_space.
Qed.

Lemma float_of_str_format x :
  float_of_str (format_plus_1f x) = Some (shown x).
Proof.
  destruct x as [s|s| |s m e].
  - now destruct s.
  - now destruct s.
  - reflexivity.
  - unfold float_of_str, parse_literal.
    destruct (format_ends (S754_finite s m e))
      as [c [mid [d [E [_ [_ [Hc Hd]]]]]]].
    rewrite E, (@strip_by_ends float_space c mid d Hc Hd), <- E.
    assert (Hu : strip_underscores None (format_plus_1f (S754_finite s m e)) =
                 Some (format_plus_1f (S754_finite s m e))).
    { apply strip_underscores_none; [|exact I].
      now apply format_has_no_sep. }
    rewrite E in Hu at 1. rewrite E at 1. cbv iota. rewrite Hu.
    cbn [format_plus_1f shown].
    replace (take_sign (sign_char s :: digits (tenths m e / 10) ++
                        "."%char :: [digit_char (tenths m e mod 10)]))
      with (s, digits (tenths m e / 10) ++
               "."%char :: [digit_char (tenths m e mod 10)])
      by now destruct s.
    destruct (digits_spec (tenths m e / 10)) as [ds [-> [Hne [Hds Hv]]]].
    assert (Hr : (tenths m e mod 10 < 10)%N) by (apply N.mod_lt; lia).
    destruct (digit_char_spec Hr) as [Hdd Hdv].
    rewrite (@parse_unsigned_tenths s ds _ Hne Hds Hdd), Hv, Hdv.
    cbn [option_map of_literal]. do 2 f_equal.
    symmetry. apply N.div_mod. lia.
Qed.

(** Both sides are the same list up to the bracketing of [++]. *)
Ltac same_list :=
  repeat (rewrite <- app_assoc || rewrite <- app_comm_cons);
  cbn [app]; reflexivity.

(** A line made of formatted numbers and what lies between them has no
    white space at its ends but the line end. *)
Lemma strip_formatted_line x mid y :
  strip (format_plus_1f x ++ mid ++ format_plus_1f y ++ [newline]) =
  format_plus_1f x ++ mid ++ format_plus_1f y.
Proof.
  destruct (format_ends x) as [c [m1 [d1 [E1 [Hc _]]]]].
  destruct (format_ends y) as [c2 [m2 [d [E2 [_ [Hd _]]]]]].
  assert (E : format_plus_1f x ++ mid ++ format_plus_1f y =
              c :: (m1 ++ [d1] ++ mid ++ c2 :: m2) ++ [d]).
  { rewrite E1, E2. same_list. }
  replace (format_plus_1f x ++ mid ++ format_plus_1f y ++ [newline])
    with ([] ++ (format_plus_1f x ++ mid ++ format_plus_1f y) ++ [newline])
    by same_list.
  unfold strip. rewrite strip_by_pad; [|constructor|repeat constructor].
  rewrite E. now apply strip_by_ends.
Qed.

Lemma strip_formatted_number x :
  strip (format_plus_1f x ++ [newline]) = format_plus_1f x.
Proof.
  destruct (format_ends x) as [c [m [d [E [Hc [Hd _]]]]]].
  replace (format_plus_1f x ++ [newline])
    with ([] ++ format_plus_1f x ++ [newline]) by reflexivity.
  unfold strip. rewrite strip_by_pad; [|constructor|repeat constructor].
  rewrite E. now apply strip_by_ends.
Qed.

(** X19. The numbers of the overlay parse back: the text that
    [format(x, '+.1f')] gives for any float, the infinities and the
    not-a-number among them, is a string that [float] accepts, and its
    value is the float nearest to the number of tenths shown.  A line
    made of such numbers separated by commas is accepted by the parser
    of each script and gives those values. *)
Theorem overlay_numbers_parse_back :
  (forall x, float_of_str (format_plus_1f x) = Some (shown x)) /\
  (forall pitch roll yaw,
      Roll_Pitch_Yaw.parse_line
        (format_plus_1f pitch ++ [comma] ++ format_plus_1f roll ++
         [comma] ++ format_plus_1f yaw ++ [newline]) =
      (Some (shown pitch), Some (shown roll), Some (shown yaw))) /\
  (forall pitch roll,
      Roll_Pitch.parse_line
        (format_plus_1f pitch ++ [comma] ++ format_plus_1f roll ++ [newline]) =
      (Some (shown pitch), Some (shown roll))) /\
  (forall pitch,
      Pitch.parse_line (format_plus_1f pitch ++ [newline]) =
      Some (shown pitch)).
Proof.
  assert (Hc : forall x, Forall (fun k => Ascii.eqb k comma = false)
                                (format_plus_1f x))
    by (intro x; now apply format_has_no_sep).
  split; [exact float_of_str_format|]. split; [|split].
  - intros pitch roll yaw.
    assert (E : split comma
                  (strip (format_plus_1f pitch ++ [comma] ++ format_plus_1f roll ++
                          [comma] ++ format_plus_1f yaw ++ [newline])) =
                [format_plus_1f pitch; format_plus_1f roll; format_plus_1f yaw]).
    { replace (format_plus_1f pitch ++ [comma] ++ format_plus_1f roll ++
               [comma] ++ format_plus_1f yaw ++ [newline])
        with (format_plus_1f pitch ++
              ([comma] ++ format_plus_1f roll ++ [comma]) ++
              format_plus_1f yaw ++ [newline])
        by same_list.
      rewrite strip_formatted_line.
      repeat rewrite <- app_assoc. cbn [app].
      rewrite (@split_app_sep _ _ _ (Hc pitch)), (@split_app_sep _ _ _ (Hc roll)).
      now rewrite (@split_no_sep _ _ (Hc yaw)). }
    rewrite (ParserFacts.rpy_parse_line_three _ E).
    now rewrite !float_of_str_format.
  - intros pitch roll.
    assert (E : split comma
                  (strip (format_plus_1f pitch ++ [comma] ++
                          format_plus_1f roll ++ [newline])) =
                [format_plus_1f pitch; format_plus_1f roll]).
    { rewrite strip_formatted_line. cbn [app].
      rewrite (@split_app_sep _ _ _ (Hc pitch)).
      now rewrite (@split_no_sep _ _ (Hc roll)). }
    rewrite (ParserFacts.roll_pitch_parse_line_fields _ E).
    now rewrite !float_of_str_format.
  - intro pitch.
    assert (E : split comma (strip (format_plus_1f pitch ++ [newline])) =
                [format_plus_1f pitch]).
    { rewrite strip_formatted_number. now apply split_no_sep. }
    rewrite (ParserFacts.pitch_parse_line_fields _ E).
    apply float_of_str_format.
Qed.

(** X20. The overlay of the three-axis script has three lines whatever
    the values are, one for each angle with its number and the degree
    sign; that of the pitch and roll script has the same first two lines
    and a fixed third one. *)
Theorem overlay_has_three_lines :
  (forall pitch roll yaw,
      split newline (Roll_Pitch_Yaw.angle_text pitch roll yaw) =
      [ of_string "Pitch: " ++ format_plus_1f pitch ++ [degree_sign];
        of_string "Roll: " ++ format_plus_1f roll ++ [degree_sign];
        of_string "Yaw: " ++ format_plus_1f yaw ++ [degree_sign] ]) /\
  (forall pitch roll,
      split newline (Roll_Pitch.angle_text pitch roll) =
      [ of_string "Pitch: " ++ format_plus_1f pitch ++ [degree_sign];
        of_string "Roll: " ++ format_plus_1f roll ++ [degree_sign];
        of_string "Yaw: ignored" ]).
Proof.
  assert (Hn : forall w x,
             Forall (fun k => Ascii.eqb k newline = false) w ->
             Forall (fun k => Ascii.eqb k newline = false)
                    (w ++ format_plus_1f x ++ [degree_sign])).
  { intros w x Hw. apply Forall_app. split; [exact Hw|].
    apply Forall_app. split; [now apply format_has_no_sep|].
    now repeat constructor. }
  assert (Hp : Forall (fun k => Ascii.eqb k newline = false) (of_string "Pitch: "))
    by now repeat constructor.
  assert (Hr : Forall (fun k => Ascii.eqb k newline = false) (of_string "Roll: "))
    by now repeat constructor.
  assert (Hy : Forall (fun k => Ascii.eqb k newline = false) (of_string "Yaw: "))
    by now repeat constructor.
  split.
  - intros pitch roll yaw. unfold Roll_Pitch_Yaw.angle_text.
    replace (of_string "Pitch: " ++ format_plus_1f pitch ++
             degree_sign :: newline ::
             of_string "Roll: " ++ format_plus_1f roll ++
             degree_sign :: newline ::
             of_string "Yaw: " ++ format_plus_1f yaw ++ [degree_sign])
      with ((of_string "Pitch: " ++ format_plus_1f pitch ++ [degree_sign]) ++
            newline ::
            (of_string "Roll: " ++ format_plus_1f roll ++ [degree_sign]) ++
            newline ::
            (of_string "Yaw: " ++ format_plus_1f yaw ++ [degree_sign]))
      by same_list.
    rewrite (@split_app_sep _ _ _ (Hn _ pitch Hp)), (@split_app_sep _ _ _ (Hn _ roll Hr)).
    now rewrite (@split_no_sep _ _ (Hn _ yaw Hy)).
  - intros pitch roll. unfold Roll_Pitch.angle_text.
    replace (of_string "Pitch: " ++ format_plus_1f pitch ++
             degree_sign :: newline ::
             of_string "Roll: " ++ format_plus_1f roll ++
             degree_sign :: newline :: of_string "Yaw: ignored")
      with ((of_string "Pitch: " ++ format_plus_1f pitch ++ [degree_sign]) ++
            newline ::
            (of_string "Roll: " ++ format_plus_1f roll ++ [degree_sign]) ++
            newline :: of_string "Yaw: ignored")
      by same_list.
    rewrite (@split_app_sep _ _ _ (Hn _ pitch Hp)), (@split_app_sep _ _ _ (Hn _ roll Hr)).
    reflexivity.
Qed.

End FormatExtras.
